(** * VideoVault: access control, projections and catalog mutations

    A shallow embedding of the server side of the video library
    ([shared/schema.ts], [server/storage.ts], [server/auth.ts] and the
    routes registered by [registerRoutes]) together with the properties of
    its authorization and projection layer.

    Conventions of the embedding:
    - a nullable column of type [T] is an [option T] ([None] is SQL NULL /
      JavaScript [null]);
    - a [Date] is the number of milliseconds since the epoch, a [Z];
    - values that travel through [req.body] and [res.json] are [json]
      values; a JavaScript object is an association list whose lookup
      returns the first binding of a key;
    - the database is a pair of tables, each a list of rows in insertion
      order; a statement that violates a constraint raises a [DbError] and
      leaves the tables as they were;
    - the clock reading ([new Date()], [now()]), the identifier drawn by
      [gen_random_uuid()] and the salt drawn by [bcrypt.genSalt] are explicit
      inputs of the operation that consumes them. *)

From Stdlib Require Import ZArith List String Bool Lia Permutation.
From Stdlib Require Import Sorting.Sorted.
Import ListNotations.
Local Open Scope string_scope.

Set Implicit Arguments.
Set Warnings "-register-all".

(** ** JSON values *)

Inductive json : Type :=
| JNull
| JBool (b : bool)
| JNum (n : Z)
| JStr (s : string)
| JDate (t : Z)
| JArr (items : list json)
| JObj (fields : list (string * json)).

(** [obj[k]]: [None] stands for [undefined]. *)
Fixpoint jget (k : string) (fields : list (string * json)) : option json :=
  match fields with
  | [] => None
  | (k', v) :: rest => if String.eqb k k' then Some v else jget k rest
  end.

Definition keys (fields : list (string * json)) : list string :=
  map fst fields.

Definition jopt {A} (f : A -> json) (o : option A) : json :=
  match o with
  | Some a => f a
  | None => JNull
  end.

(** ** shared/schema.ts *)

Inductive Role := USER | ADMIN.

Definition Role_eqb (a b : Role) : bool :=
  match a, b with
  | USER, USER | ADMIN, ADMIN => true
  | _, _ => false
  end.

Definition Role_json (r : Role) : json :=
  match r with
  | USER => JStr "USER"
  | ADMIN => JStr "ADMIN"
  end.

(** A row of the [users] table. *)
Module User.
Record t := mk {
  id : string;
  email : string;
  password : string;
  avatarUrl : option string;
  role : Role;
  createdAt : option Z
}.
End User.

(** A row of the [videos] table.  Only [id], [title] and [sourceUrl] are
    declared [notNull]. *)
Module Video.
Record t := mk {
  id : string;
  title : string;
  description : option string;
  sourceUrl : string;
  thumbnailUrl : option string;
  duration : option string;
  views : option Z;
  canPlay : option bool;
  canShare : option bool;
  canDownload : option bool;
  createdAt : option Z;
  updatedAt : option Z
}.
End Video.

(** [insertUserSchema]: the [email] and [password] columns only. *)
Module InsertUser.
Record t := mk { email : string; password : string }.
End InsertUser.

(** A property of a parsed object whose schema is [.optional()]: the key
    may be missing ([Absent], JavaScript [undefined]) or carry a value. *)
Inductive supplied (A : Type) : Type :=
| Absent
| Given (a : A).
Arguments Absent {A}.

(** [insertVideoSchema]: the [videos] columns except [id], [createdAt],
    [updatedAt] and [views].  The two [notNull] columns without a default
    are required strings; every other column is nullable, hence
    [.nullable().optional()]. *)
Module InsertVideo.
Record t := mk {
  title : string;
  description : supplied (option string);
  sourceUrl : string;
  thumbnailUrl : supplied (option string);
  duration : supplied (option string);
  canPlay : supplied (option bool);
  canShare : supplied (option bool);
  canDownload : supplied (option bool)
}.
End InsertVideo.

(** [updateVideoSchema = insertVideoSchema.partial()]: every key optional. *)
Module UpdateVideo.
Record t := mk {
  title : supplied string;
  description : supplied (option string);
  sourceUrl : supplied string;
  thumbnailUrl : supplied (option string);
  duration : supplied (option string);
  canPlay : supplied (option bool);
  canShare : supplied (option bool);
  canDownload : supplied (option bool)
}.
End UpdateVideo.

(** *** Zod parsers of the column types

    Each parser takes the property read from the body ([None] when the key
    is missing) and returns [None] when Zod would report an issue. *)

(** [z.string()] *)
Definition z_string (p : option json) : option string :=
  match p with
  | Some (JStr s) => Some s
  | _ => None
  end.

(** [z.string().optional()] *)
Definition z_string_optional (p : option json) : option (supplied string) :=
  match p with
  | None => Some Absent
  | Some (JStr s) => Some (Given s)
  | Some _ => None
  end.

(** [z.string().nullable().optional()] *)
Definition z_string_nullish (p : option json)
  : option (supplied (option string)) :=
  match p with
  | None => Some Absent
  | Some JNull => Some (Given None)
  | Some (JStr s) => Some (Given (Some s))
  | Some _ => None
  end.

(** [z.boolean().nullable().optional()] *)
Definition z_boolean_nullish (p : option json)
  : option (supplied (option bool)) :=
  match p with
  | None => Some Absent
  | Some JNull => Some (Given None)
  | Some (JBool b) => Some (Given (Some b))
  | Some _ => None
  end.

(** A [ZodError]; of each issue only the path is kept ([[]] is the root). *)
Inductive ZodError := mkZodError (paths : list (list string)).

Definition issue_at {A} (k : string) (r : option A) : list (list string) :=
  match r with
  | Some _ => []
  | None => [[k]]
  end.

Definition obind {A B} (o : option A) (f : A -> option B) : option B :=
  match o with
  | Some a => f a
  | None => None
  end.

Notation "x <-? o ;; k" := (obind o (fun x => k))
  (at level 61, o at next level, right associativity).

(** [insertVideoSchema.parse(body)].  Keys outside the schema are stripped:
    they are never read. *)
Definition insertVideoSchema_parse (body : json) : InsertVideo.t + ZodError :=
  match body with
  | JObj o =>
      let title := z_string (jget "title" o) in
      let description := z_string_nullish (jget "description" o) in
      let sourceUrl := z_string (jget "sourceUrl" o) in
      let thumbnailUrl := z_string_nullish (jget "thumbnailUrl" o) in
      let duration := z_string_nullish (jget "duration" o) in
      let canPlay := z_boolean_nullish (jget "canPlay" o) in
      let canShare := z_boolean_nullish (jget "canShare" o) in
      let canDownload := z_boolean_nullish (jget "canDownload" o) in
      match
        t <-? title ;; d <-? description ;; s <-? sourceUrl ;;
        th <-? thumbnailUrl ;; du <-? duration ;;
        cp <-? canPlay ;; cs <-? canShare ;; cd <-? canDownload ;;
        Some (InsertVideo.mk t d s th du cp cs cd)
      with
      | Some v => inl v
      | None =>
          inr (mkZodError
                 (issue_at "title" title ++ issue_at "description" description
                  ++ issue_at "sourceUrl" sourceUrl
                  ++ issue_at "thumbnailUrl" thumbnailUrl
                  ++ issue_at "duration" duration
                  ++ issue_at "canPlay" canPlay ++ issue_at "canShare" canShare
                  ++ issue_at "canDownload" canDownload))
      end
  | _ => inr (mkZodError [[]])
  end.

(** [updateVideoSchema.parse(body)]. *)
Definition updateVideoSchema_parse (body : json) : UpdateVideo.t + ZodError :=
  match body with
  | JObj o =>
      let title := z_string_optional (jget "title" o) in
      let description := z_string_nullish (jget "description" o) in
      let sourceUrl := z_string_optional (jget "sourceUrl" o) in
      let thumbnailUrl := z_string_nullish (jget "thumbnailUrl" o) in
      let duration := z_string_nullish (jget "duration" o) in
      let canPlay := z_boolean_nullish (jget "canPlay" o) in
      let canShare := z_boolean_nullish (jget "canShare" o) in
      let canDownload := z_boolean_nullish (jget "canDownload" o) in
      match
        t <-? title ;; d <-? description ;; s <-? sourceUrl ;;
        th <-? thumbnailUrl ;; du <-? duration ;;
        cp <-? canPlay ;; cs <-? canShare ;; cd <-? canDownload ;;
        Some (UpdateVideo.mk t d s th du cp cs cd)
      with
      | Some v => inl v
      | None =>
          inr (mkZodError
                 (issue_at "title" title ++ issue_at "description" description
                  ++ issue_at "sourceUrl" sourceUrl
                  ++ issue_at "thumbnailUrl" thumbnailUrl
                  ++ issue_at "duration" duration
                  ++ issue_at "canPlay" canPlay ++ issue_at "canShare" canShare
                  ++ issue_at "canDownload" canDownload))
      end
  | _ => inr (mkZodError [[]])
  end.

(** ** server/storage.ts *)

(** The two tables, rows in insertion order. *)
Record Store := mkStore {
  users : list User.t;
  videos : list Video.t
}.

(** What a statement can raise: a primary-key or [unique()] violation, and
    the overflow of an [integer] column (32 bits, signed). *)
Inductive DbError := UniqueViolation | IntegerOutOfRange.

Definition INT4_MAX : Z := 2147483647.

(** A storage method reads and writes the tables and either returns or
    throws. *)
Inductive outcome (A : Type) : Type :=
| Ok (a : A) (s : Store)
| Throw (e : DbError) (s : Store).
Arguments Throw {A}.

Definition M (A : Type) : Type := Store -> outcome A.

Definition ret {A} (a : A) : M A := fun s => Ok a s.

Definition bind {A B} (m : M A) (f : A -> M B) : M B :=
  fun s =>
    match m s with
    | Ok a s' => f a s'
    | Throw e s' => Throw e s'
    end.

Definition gets {A} (f : Store -> A) : M A := fun s => Ok (f s) s.

Notation "'let*' x ':=' m 'in' k" := (bind m (fun x => k))
  (at level 10, x name, m at level 100, k at level 200).

Definition has_user_id (i : string) (u : User.t) : bool := String.eqb (User.id u) i.
Definition has_email (e : string) (u : User.t) : bool := String.eqb (User.email u) e.
Definition has_video_id (i : string) (v : Video.t) : bool := String.eqb (Video.id v) i.

(** [select().from(users).where(eq(users.id, id))], first row. *)
Definition getUser (id : string) : M (option User.t) :=
  gets (fun s => find (has_user_id id) (users s)).

Definition getUserByEmail (email : string) : M (option User.t) :=
  gets (fun s => find (has_email email) (users s)).

(** [insert(users).values(insertUser).returning()]: the columns left out
    take their defaults. *)
Definition createUser (uuid : string) (now : Z) (insertUser : InsertUser.t)
  : M User.t :=
  fun s =>
    if existsb (has_user_id uuid) (users s)
       || existsb (has_email (InsertUser.email insertUser)) (users s)
    then Throw UniqueViolation s
    else
      let user :=
        User.mk uuid (InsertUser.email insertUser)
                (InsertUser.password insertUser) None USER (Some now) in
      Ok user (mkStore (users s ++ [user]) (videos s)).

Definition set_avatarUrl (a : string) (u : User.t) : User.t :=
  User.mk (User.id u) (User.email u) (User.password u) (Some a)
          (User.role u) (User.createdAt u).

Definition updateUserAvatar (userId avatarUrl : string) : M unit :=
  fun s =>
    Ok tt (mkStore
             (map (fun u => if has_user_id userId u
                            then set_avatarUrl avatarUrl u else u) (users s))
             (videos s)).

(** [desc(videos.createdAt)]: a row goes before another when its timestamp
    is NULL or not smaller (PostgreSQL puts NULLs first in descending
    order).  Rows with equal timestamps keep their table order here; the
    database leaves their order open and no property below depends on
    it. *)
Definition created_before (a b : Video.t) : bool :=
  match Video.createdAt a, Video.createdAt b with
  | None, _ => true
  | Some _, None => false
  | Some x, Some y => (y <=? x)%Z
  end.

Fixpoint insert_desc (v : Video.t) (l : list Video.t) : list Video.t :=
  match l with
  | [] => [v]
  | w :: rest =>
      if created_before v w then v :: l else w :: insert_desc v rest
  end.

Fixpoint order_desc (l : list Video.t) : list Video.t :=
  match l with
  | [] => []
  | v :: rest => insert_desc v (order_desc rest)
  end.

Definition getVideos : M (list Video.t) :=
  gets (fun s => order_desc (videos s)).

Definition getVideo (id : string) : M (option Video.t) :=
  gets (fun s => find (has_video_id id) (videos s)).

(** What [insert] stores for a nullable column with a default: the default
    when the key is [undefined], the given value (NULL included)
    otherwise. *)
Definition or_default {A} (d : option A) (x : supplied (option A)) : option A :=
  match x with
  | Absent => d
  | Given a => a
  end.

Definition createVideo (uuid : string) (now : Z) (video : InsertVideo.t)
  : M Video.t :=
  fun s =>
    if existsb (has_video_id uuid) (videos s)
    then Throw UniqueViolation s
    else
      let newVideo :=
        Video.mk uuid
                 (InsertVideo.title video)
                 (or_default None (InsertVideo.description video))
                 (InsertVideo.sourceUrl video)
                 (or_default None (InsertVideo.thumbnailUrl video))
                 (or_default None (InsertVideo.duration video))
                 (Some 0%Z)
                 (or_default (Some true) (InsertVideo.canPlay video))
                 (or_default (Some true) (InsertVideo.canShare video))
                 (or_default (Some false) (InsertVideo.canDownload video))
                 (Some now) (Some now) in
      Ok newVideo (mkStore (users s) (videos s ++ [newVideo])).

(** [.set({ ...video, updatedAt: new Date() })]: a key that is [undefined]
    leaves its column alone. *)
Definition or_keep {A} (old : A) (x : supplied A) : A :=
  match x with
  | Absent => old
  | Given a => a
  end.

Definition set_video (video : UpdateVideo.t) (now : Z) (v : Video.t) : Video.t :=
  Video.mk (Video.id v)
           (or_keep (Video.title v) (UpdateVideo.title video))
           (or_keep (Video.description v) (UpdateVideo.description video))
           (or_keep (Video.sourceUrl v) (UpdateVideo.sourceUrl video))
           (or_keep (Video.thumbnailUrl v) (UpdateVideo.thumbnailUrl video))
           (or_keep (Video.duration v) (UpdateVideo.duration video))
           (Video.views v)
           (or_keep (Video.canPlay v) (UpdateVideo.canPlay video))
           (or_keep (Video.canShare v) (UpdateVideo.canShare video))
           (or_keep (Video.canDownload v) (UpdateVideo.canDownload video))
           (Video.createdAt v)
           (Some now).

(** [update(videos).set(...).where(eq(videos.id, id))] on the rows of the
    table. *)
Definition update_where (id : string) (set : Video.t -> Video.t)
    (rows : list Video.t) : list Video.t :=
  map (fun v => if has_video_id id v then set v else v) rows.

(** [.returning()] gives the rows that were updated; the method takes the
    first. *)
Definition updateVideo (now : Z) (id : string) (video : UpdateVideo.t)
  : M (option Video.t) :=
  fun s =>
    let rows := update_where id (set_video video now) (videos s) in
    Ok (find (has_video_id id) rows) (mkStore (users s) rows).

(** [delete(videos).where(eq(videos.id, id))]; [rowCount] is the number of
    rows removed. *)
Definition deleteVideo (id : string) : M bool :=
  fun s =>
    let rowCount := List.length (filter (has_video_id id) (videos s)) in
    Ok (0 <? rowCount)%nat
       (mkStore (users s)
                (filter (fun v => negb (has_video_id id v)) (videos s))).

(** [views + 1] in SQL: NULL stays NULL. *)
Definition set_views (n : option Z) (v : Video.t) : Video.t :=
  Video.mk (Video.id v) (Video.title v) (Video.description v)
           (Video.sourceUrl v) (Video.thumbnailUrl v) (Video.duration v)
           n
           (Video.canPlay v) (Video.canShare v) (Video.canDownload v)
           (Video.createdAt v) (Video.updatedAt v).

Definition views_overflow (id : string) (v : Video.t) : bool :=
  has_video_id id v
  && match Video.views v with
     | Some n => (INT4_MAX <=? n)%Z
     | None => false
     end.

Definition increment_views (v : Video.t) : Video.t :=
  set_views (option_map (fun n => n + 1)%Z (Video.views v)) v.

Definition incrementVideoViews (id : string) : M unit :=
  fun s =>
    if existsb (views_overflow id) (videos s)
    then Throw IntegerOutOfRange s
    else Ok tt (mkStore (users s) (update_where id increment_views (videos s))).

(** ** HTTP responses *)

Inductive Body :=
| BJson (j : json)            (* res.json(j) *)
| BText (t : string)          (* res.sendStatus / res.end(text) *)
| BRedirect (location : string)
| BEmpty                      (* res.send() *)
| BError (e : DbError).       (* next(error): left to the error handler *)

Record Response := mkResponse { status : nat; body : Body }.

Definition message (code : nat) (text : string) : Response :=
  mkResponse code (BJson (JObj [("message", JStr text)])).

Definition next_error (e : DbError) : Response := mkResponse 500 (BError e).

(** [try { ... } catch (error) { next(error) }] around a handler body. *)
Definition try_catch {A} (fail : DbError -> A) (m : M A) (s : Store) : A * Store :=
  match m s with
  | Ok a s' => (a, s')
  | Throw e s' => (fail e, s')
  end.

(** JavaScript truthiness of an optional string ([!x] is its negation). *)
Definition truthy (x : option string) : bool :=
  match x with
  | Some s => negb (String.eqb s "")
  | None => false
  end.

(** ** server/auth.ts *)

(** The object sent by [/api/register], [/api/login] and [/api/user]. *)
Definition user_json (user : User.t) : json :=
  JObj [ ("id", JStr (User.id user));
         ("email", JStr (User.email user));
         ("avatarUrl", jopt JStr (User.avatarUrl user));
         ("role", Role_json (User.role user));
         ("createdAt", jopt JDate (User.createdAt user)) ].

(** The session keeps what [serializeUser] stores: the user's id. *)
Definition Session := option string.

Definition serializeUser (user : User.t) : string := User.id user.

(** The [deserializeUser] callback: what it hands to [done] for the id kept
    in the session, the stored user or [undefined] ([None]) when no user
    has that id.  What passport makes of it is [passport_session]. *)
Definition deserializeUser (session : Session) : M (option User.t) :=
  match session with
  | Some id => getUser id
  | None => ret None
  end.

Definition isAuthenticated (user : option User.t) : bool :=
  match user with
  | Some _ => true
  | None => false
  end.

(** A middleware either answers ([Some]) or calls [next()] ([None]). *)
Definition requireAuth (user : option User.t) : option Response :=
  if negb (isAuthenticated user)
  then Some (message 401 "Authentication required")
  else None.

Definition requireAdmin (user : option User.t) : option Response :=
  if negb (isAuthenticated user)
     || match user with
        | Some u => negb (Role_eqb (User.role u) ADMIN)
        | None => true
        end
  then Some (message 403 "Admin access required")
  else None.

(** What the local strategy's verify callback hands to [done]. *)
Inductive Verified :=
| VerifiedUser (user : User.t)   (* done(null, user) *)
| VerifiedFalse.                 (* done(null, false) *)

Section Auth.

(** [bcrypt.hash(password, salt)] and [bcrypt.compare(supplied, stored)]. *)
Variable bcrypt_hash : string -> string -> string.
Variable bcrypt_compare : string -> string -> bool.

Definition hashPassword (salt password : string) : string :=
  bcrypt_hash password salt.

Definition comparePasswords (supplied stored : string) : bool :=
  bcrypt_compare supplied stored.

Definition verify (email password : string) : M Verified :=
  let* user := getUserByEmail email in
  match user with
  | None => ret VerifiedFalse
  | Some u =>
      if negb (comparePasswords password (User.password u))
      then ret VerifiedFalse
      else ret (VerifiedUser u)
  end.

(** [passport.authenticate("local")]: the strategy fails with 400 when a
    credential is missing, with 401 when [verify] says [false]; on success
    the user is logged in and the route's handler runs. *)
Definition passport_authenticate_local (email password : option string)
  : M (Response + User.t) :=
  match email, password with
  | Some e, Some p =>
      if negb (truthy email) || negb (truthy password)
      then ret (inl (mkResponse 400 (BText "Bad Request")))
      else
        let* v := verify e p in
        match v with
        | VerifiedFalse => ret (inl (mkResponse 401 (BText "Unauthorized")))
        | VerifiedUser u => ret (inr u)
        end
  | _, _ => ret (inl (mkResponse 400 (BText "Bad Request")))
  end.

Definition auth_failed (session : Session) (e : DbError) : Response * Session :=
  (next_error e, session).

(** [POST /api/register] *)
Definition post_api_register (uuid salt : string) (now : Z)
    (email password : option string) (session : Session)
  : Store -> (Response * Session) * Store :=
  try_catch (auth_failed session)
    match email, password with
    | Some e, Some p =>
        if negb (truthy email) || negb (truthy password)
        then ret (message 400 "Email and password are required", session)
        else
          let* existingUser := getUserByEmail e in
          match existingUser with
          | Some _ =>
              ret (message 400 "User with this email already exists", session)
          | None =>
              let* user :=
                createUser uuid now (InsertUser.mk e (hashPassword salt p)) in
              ret (mkResponse 201 (BJson (user_json user)),
                   Some (serializeUser user))
          end
    | _, _ => ret (message 400 "Email and password are required", session)
    end.

(** [POST /api/login] *)
Definition post_api_login (email password : option string) (session : Session)
  : Store -> (Response * Session) * Store :=
  try_catch (auth_failed session)
    (let* r := passport_authenticate_local email password in
     match r with
     | inl failure => ret (failure, session)
     | inr user =>
         ret (mkResponse 200 (BJson (user_json user)),
              Some (serializeUser user))
     end).

(** [POST /api/logout] *)
Definition post_api_logout (session : Session) : Response * Session :=
  (mkResponse 200 (BText "OK"), None).

(** [GET /api/user] *)
Definition get_api_user (user : option User.t) : Response :=
  match user with
  | None => mkResponse 401 (BText "Unauthorized")
  | Some user => mkResponse 200 (BJson (user_json user))
  end.

End Auth.

(** ** server/routes.ts *)

(** The object built for each video by [GET /api/videos]. *)
Definition publicVideo (video : Video.t) : json :=
  JObj [ ("id", JStr (Video.id video));
         ("title", JStr (Video.title video));
         ("description", jopt JStr (Video.description video));
         ("thumbnailUrl", jopt JStr (Video.thumbnailUrl video));
         ("duration", jopt JStr (Video.duration video));
         ("views", jopt JNum (Video.views video));
         ("canPlay", jopt JBool (Video.canPlay video));
         ("canShare", jopt JBool (Video.canShare video));
         ("canDownload", jopt JBool (Video.canDownload video));
         ("createdAt", jopt JDate (Video.createdAt video)) ].

(** [video.views || 0] *)
Definition views_or_0 (video : Video.t) : Z :=
  match Video.views video with
  | Some n => n
  | None => 0%Z
  end.

(** The object sent by [GET /api/videos/:id]. *)
Definition detailedVideo (video : Video.t) : json :=
  JObj [ ("id", JStr (Video.id video));
         ("title", JStr (Video.title video));
         ("description", jopt JStr (Video.description video));
         ("sourceUrl", JStr (Video.sourceUrl video));
         ("thumbnailUrl", jopt JStr (Video.thumbnailUrl video));
         ("duration", jopt JStr (Video.duration video));
         ("views", JNum (views_or_0 video + 1));
         ("canPlay", jopt JBool (Video.canPlay video));
         ("canShare", jopt JBool (Video.canShare video));
         ("canDownload", jopt JBool (Video.canDownload video));
         ("createdAt", jopt JDate (Video.createdAt video)) ].

(** [res.json(video)] on a row: every column. *)
Definition video_json (video : Video.t) : json :=
  JObj [ ("id", JStr (Video.id video));
         ("title", JStr (Video.title video));
         ("description", jopt JStr (Video.description video));
         ("sourceUrl", JStr (Video.sourceUrl video));
         ("thumbnailUrl", jopt JStr (Video.thumbnailUrl video));
         ("duration", jopt JStr (Video.duration video));
         ("views", jopt JNum (Video.views video));
         ("canPlay", jopt JBool (Video.canPlay video));
         ("canShare", jopt JBool (Video.canShare video));
         ("canDownload", jopt JBool (Video.canDownload video));
         ("createdAt", jopt JDate (Video.createdAt video));
         ("updatedAt", jopt JDate (Video.updatedAt video)) ].

(** [{ message: "Invalid video data", errors: error.errors }] *)
Definition invalid_video_data (e : ZodError) : Response :=
  let 'mkZodError paths := e in
  mkResponse 400
    (BJson (JObj [ ("message", JStr "Invalid video data");
                   ("errors",
                    JArr (map (fun p => JObj [("path", JArr (map JStr p))])
                              paths)) ])).

(** A route: its middleware, then its handler inside [try]/[catch]. *)
Definition route (middleware : option User.t -> option Response)
    (user : option User.t) (handler : M Response) (s : Store)
  : Response * Store :=
  match middleware user with
  | Some rejected => (rejected, s)
  | None => try_catch next_error handler s
  end.

(** [GET /api/videos] *)
Definition get_api_videos (user : option User.t) : Store -> Response * Store :=
  route requireAuth user
    (let* videos := getVideos in
     let publicVideos := map publicVideo videos in
     ret (mkResponse 200 (BJson (JArr publicVideos)))).

(** [GET /api/videos/:id] *)
Definition get_api_videos_id (user : option User.t) (id : string)
  : Store -> Response * Store :=
  route requireAuth user
    (let* video := getVideo id in
     match video with
     | None => ret (message 404 "Video not found")
     | Some video =>
         let* _ := incrementVideoViews (Video.id video) in
         ret (mkResponse 200 (BJson (detailedVideo video)))
     end).

(** [!video.canDownload]: NULL is falsy. *)
Definition falsy (b : option bool) : bool :=
  match b with
  | Some true => false
  | _ => true
  end.

(** [GET /api/videos/:id/download] *)
Definition get_api_videos_id_download (user : option User.t) (id : string)
  : Store -> Response * Store :=
  route requireAuth user
    (let* video := getVideo id in
     match video with
     | None => ret (message 404 "Video not found")
     | Some video =>
         if falsy (Video.canDownload video)
         then ret (message 403 "Download not allowed for this video")
         else ret (mkResponse 302 (BRedirect (Video.sourceUrl video)))
     end).

(** [GET /api/admin/videos] *)
Definition get_api_admin_videos (user : option User.t)
  : Store -> Response * Store :=
  route requireAdmin user
    (let* videos := getVideos in
     ret (mkResponse 200 (BJson (JArr (map video_json videos))))).

(** [POST /api/admin/videos] *)
Definition post_api_admin_videos (uuid : string) (now : Z)
    (user : option User.t) (body : json) : Store -> Response * Store :=
  route requireAdmin user
    match insertVideoSchema_parse body with
    | inr error => ret (invalid_video_data error)
    | inl videoData =>
        let* video := createVideo uuid now videoData in
        ret (mkResponse 201 (BJson (video_json video)))
    end.

(** [PUT /api/admin/videos/:id] *)
Definition put_api_admin_videos_id (now : Z) (user : option User.t)
    (id : string) (body : json) : Store -> Response * Store :=
  route requireAdmin user
    match updateVideoSchema_parse body with
    | inr error => ret (invalid_video_data error)
    | inl videoData =>
        let* video := updateVideo now id videoData in
        match video with
        | None => ret (message 404 "Video not found")
        | Some video => ret (mkResponse 200 (BJson (video_json video)))
        end
    end.

(** [DELETE /api/admin/videos/:id] *)
Definition delete_api_admin_videos_id (user : option User.t) (id : string)
  : Store -> Response * Store :=
  route requireAdmin user
    (let* deleted := deleteVideo id in
     if negb deleted
     then ret (message 404 "Video not found")
     else ret (mkResponse 204 BEmpty)).

(** [GET /api/admin/stats] *)
Definition stats_json (totalVideos : nat) (totalUsers totalViews : Z) : json :=
  JObj [ ("totalVideos", JNum (Z.of_nat totalVideos));
         ("totalUsers", JNum totalUsers);
         ("totalViews", JNum totalViews) ].

Definition get_api_admin_stats (user : option User.t)
  : Store -> Response * Store :=
  route requireAdmin user
    (let* videos := getVideos in
     let totalViews :=
       fold_left (fun sum video => (sum + views_or_0 video)%Z) videos 0%Z in
     ret (mkResponse 200
            (BJson (stats_json (List.length videos) 1249 totalViews)))).

(** ** The access levels of the routes *)

Inductive Level := Public | Authenticated | Admin.

(** A rejection is told apart by its status code. *)
Inductive Decision :=
| Allowed
| Denied (code : nat).

Definition Unauthenticated : nat := 401.
Definition Forbidden : nat := 403.

(** The middleware a route of each level is registered with; a public
    route ([/api/login], [/api/register], ...) has none. *)
Definition middleware_of (level : Level) : option User.t -> option Response :=
  match level with
  | Public => fun _ => None
  | Authenticated => requireAuth
  | Admin => requireAdmin
  end.

Definition authorize (principal : option User.t) (level : Level) : Decision :=
  match middleware_of level principal with
  | None => Allowed
  | Some rejected => Denied (status rejected)
  end.

(** The decision table as the specification words it. *)
Definition authorize_table (principal : option User.t) (level : Level)
  : Decision :=
  match level, principal with
  | Public, _ => Allowed
  | Authenticated, Some _ => Allowed
  | Authenticated, None => Denied Unauthenticated
  | Admin, Some u =>
      if Role_eqb (User.role u) ADMIN then Allowed else Denied Forbidden
  | Admin, None => Denied Unauthenticated
  end.

(** ** Fields of a response *)

(** Does some object inside [j] carry the key [k]? *)
Fixpoint has_key (k : string) (j : json) : bool :=
  match j with
  | JArr items => existsb (has_key k) items
  | JObj fields =>
      existsb (fun kv => let '(k', v) := kv in String.eqb k k' || has_key k v)
              fields
  | _ => false
  end.

Definition body_has_key (k : string) (b : Body) : bool :=
  match b with
  | BJson j => has_key k j
  | _ => false
  end.

(** A property of the request body ([undefined] when the body is not an
    object). *)
Definition body_field (k : string) (body : json) : option json :=
  match body with
  | JObj o => jget k o
  | _ => None
  end.

Definition find_video (id : string) (s : Store) : option Video.t :=
  find (has_video_id id) (videos s).

Definition find_user_by_email (email : string) (s : Store) : option User.t :=
  find (has_email email) (users s).

(** The sum of the view counters of a list of rows. *)
Definition sum_views (l : list Video.t) : Z :=
  fold_right (fun v acc => (views_or_0 v + acc)%Z) 0%Z l.

(** The primary key of [videos]. *)
Definition video_ids_unique (s : Store) : Prop :=
  NoDup (map Video.id (videos s)).

(** Sample data. *)
Definition alice : User.t :=
  User.mk "u1" "alice@example.org" "$2a$12$alice" None USER (Some 1000%Z).

Definition root : User.t :=
  User.mk "u0" "root@example.org" "$2a$12$root" None ADMIN (Some 0%Z).

Definition clip : Video.t :=
  Video.mk "v1" "Clip" (Some "X") "http://cdn/clip.mp4" None None
           (Some 5%Z) (Some true) (Some true) (Some false)
           (Some 2000%Z) (Some 2000%Z).

Definition library : Store := mkStore [root; alice] [clip].


(** One successful call of a storage method that writes. *)
Inductive writes : Store -> Store -> Prop :=
| writes_createUser uuid now insertUser s user s' :
    createUser uuid now insertUser s = Ok user s' -> writes s s'
| writes_updateUserAvatar userId avatarUrl s s' :
    updateUserAvatar userId avatarUrl s = Ok tt s' -> writes s s'
| writes_createVideo uuid now video s newVideo s' :
    createVideo uuid now video s = Ok newVideo s' -> writes s s'
| writes_updateVideo now id video s updatedVideo s' :
    updateVideo now id video s = Ok updatedVideo s' -> writes s s'
| writes_deleteVideo id s deleted s' :
    deleteVideo id s = Ok deleted s' -> writes s s'
| writes_incrementVideoViews id s s' :
    incrementVideoViews id s = Ok tt s' -> writes s s'.

(** The stores the storage methods can build from empty tables. *)
Inductive reachable : Store -> Prop :=
| reachable_empty : reachable (mkStore [] [])
| reachable_step s s' : reachable s -> writes s s' -> reachable s'.

(** A stand-in for bcrypt in the examples: the hash is the salt followed
    by the password. *)
Definition sample_hash (password salt : string) : string := salt ++ password.

Definition sample_compare (supplied stored : string) : bool :=
  String.eqb (sample_hash supplied "$2a$12$") stored.

(** ** Avatar upload ([POST /api/me/avatar])

    The file part of the request as multer sees it; [filename] is the name
    multer draws for the stored copy. *)
Module File.
Record t := mk { mimetype : string; size : Z; filename : string }.
End File.

(** [limits.fileSize] *)
Definition fileSize : Z := 5 * 1024 * 1024.

(** [fileFilter]: [file.mimetype.startsWith("image/")] *)
Definition fileFilter (file : File.t) : bool :=
  String.prefix "image/" (File.mimetype file).

(** What reaches [next(error)] on this route: the filter's
    ["Only image files are allowed"], multer's size limit, or the
    [TypeError] of reading [req.user!.id] without a user. *)
Inductive AvatarError := OnlyImageFiles | LIMIT_FILE_SIZE | TypeError.

(** [upload.single("avatar")]: [req.file], or an error. *)
Definition upload_single (part : option File.t) : AvatarError + option File.t :=
  match part with
  | None => inr None
  | Some file =>
      if negb (fileFilter file) then inl OnlyImageFiles
      else if (fileSize <? File.size file)%Z then inl LIMIT_FILE_SIZE
      else inr (Some file)
  end.

Inductive AvatarAnswer :=
| Answered (r : Response)
| NextError (e : AvatarError).

Definition post_api_me_avatar (user : option User.t) (part : option File.t)
    (s : Store) : AvatarAnswer * Store :=
  match requireAuth user with
  | Some rejected => (Answered rejected, s)
  | None =>
      match upload_single part with
      | inl e => (NextError e, s)
      | inr None => (Answered (message 400 "No file uploaded"), s)
      | inr (Some file) =>
          let avatarUrl := "/uploads/" ++ File.filename file in
          match user with
          | None => (NextError TypeError, s)
          | Some u =>
              let (r, s') :=
                try_catch next_error
                  (let* _ := updateUserAvatar (User.id u) avatarUrl in
                   ret (mkResponse 200
                          (BJson (JObj [("avatarUrl", JStr avatarUrl)]))))
                  s in
              (Answered r, s')
          end
      end
  end.

(** ** Client handlers *)

(** What a click handler does: show a toast, open a window, start the
    upload mutation, or nothing. *)
Inductive ClientAction :=
| Toast (title description : string)
| WindowOpen (url : string)
| UploadAvatar (file : File.t)
| NoAction.

(** [handleDownload] of the video card and of the player. *)
Definition handleDownload (video : Video.t) : ClientAction :=
  if falsy (Video.canDownload video)
  then Toast "Download not available" "This video cannot be downloaded"
  else WindowOpen ("/api/videos/" ++ Video.id video ++ "/download").

(** [handleFileSelect] of the profile dialog. *)
Definition handleFileSelect (file : option File.t) : ClientAction :=
  match file with
  | None => NoAction
  | Some file =>
      if negb (String.prefix "image/" (File.mimetype file))
      then Toast "Invalid file type" "Please select an image file"
      else if (5 * 1024 * 1024 <? File.size file)%Z
      then Toast "File too large" "Please select an image smaller than 5MB"
      else UploadAvatar file
  end.

(** ** The session in front of every route

    [passport.session()]: without a user id in the session the request
    goes on anonymously; with one, the user that [deserializeUser] finds
    becomes [req.user]; when the callback finds none ([undefined]) or
    throws, passport hands an error to [next] ("Failed to deserialize user
    out of session" in the first case) and the request is answered by the
    error handler, not by the route. *)
Inductive SessionOutcome :=
| SessionNone                       (* req.user stays undefined *)
| SessionUser (user : User.t)       (* req.user = user *)
| SessionFailed (e : option DbError).

Definition passport_session (session : Session) (s : Store) : SessionOutcome :=
  match session with
  | None => SessionNone
  | Some id =>
      match deserializeUser (Some id) s with
      | Ok (Some user) _ => SessionUser user
      | Ok None _ => SessionFailed None
      | Throw e _ => SessionFailed (Some e)
      end
  end.

(** ** Vocabulary of the further properties *)

Definition schema_keys : list string :=
  ["title"; "description"; "sourceUrl"; "thumbnailUrl"; "duration";
   "canPlay"; "canShare"; "canDownload"].

Definition public_keys : list string :=
  ["id"; "title"; "description"; "thumbnailUrl"; "duration"; "views";
   "canPlay"; "canShare"; "canDownload"; "createdAt"].

Definition is_admin (u : User.t) : bool := Role_eqb (User.role u) ADMIN.

(** The primary key and the [unique()] column of [users]. *)
Definition users_unique (s : Store) : Prop :=
  NoDup (map User.id (users s)) /\ NoDup (map User.email (users s)).

Definition find_user (id : string) (s : Store) : option User.t :=
  find (has_user_id id) (users s).

(** The order [desc(videos.createdAt)] asks for. *)
Definition newer_first (a b : Video.t) : Prop := created_before a b = true.

(** The store after [n] detail requests for the same id in a row. *)
Fixpoint detail_reads (n : nat) (user : option User.t) (id : string)
    (s : Store) : Store :=
  match n with
  | O => s
  | S k => detail_reads k user id (snd (get_api_videos_id user id s))
  end.

(** A counter that is a number between 0 and the largest 32-bit
    integer. *)
Definition counter_in_range (v : Video.t) : Prop :=
  match Video.views v with
  | Some n => (0 <= n <= INT4_MAX)%Z
  | None => False
  end.

(** * Properties *)

(** ** Access control gate *)

Lemma requireAuth_present (u : User.t) : requireAuth (Some u) = None.
Proof. reflexivity. Qed.

Lemma requireAdmin_admin (u : User.t) :
  User.role u = ADMIN -> requireAdmin (Some u) = None.
Proof. intros H. unfold requireAdmin. simpl. now rewrite H. Qed.

Lemma requireAdmin_allows (p : option User.t) :
  requireAdmin p = None <-> exists u, p = Some u /\ User.role u = ADMIN.
Proof.
  split.
  - destruct p as [u|]; [|discriminate].
    unfold requireAdmin; simpl.
    destruct (User.role u) eqn:R; [discriminate|].
    intros _. now exists u.
  - intros (u & -> & R). now apply requireAdmin_admin.
Qed.

(** C2, as stated, fails: an anonymous caller of an Admin route is turned
    away with 403 (Forbidden), not with 401 (Unauthenticated). *)
Lemma authorize_anonymous_admin_not_table :
  authorize None Admin = Denied Forbidden
  /\ authorize None Admin <> authorize_table None Admin.
Proof. split; [reflexivity | discriminate]. Qed.

(** C2 (amended): [authorize] follows the table except on its (absent,
    Admin) entry.  Public is always allowed; Authenticated is allowed iff a
    principal is present and is otherwise denied as Unauthenticated; Admin
    is allowed iff a principal with role ADMIN is present and is otherwise
    denied as Forbidden, whether the principal is absent or has the wrong
    role. *)
Theorem authorize_decisions (principal : option User.t) :
  authorize principal Public = Allowed
  /\ (authorize principal Authenticated = Allowed <-> principal <> None)
  /\ (principal = None ->
      authorize principal Authenticated = Denied Unauthenticated)
  /\ (authorize principal Admin = Allowed <->
      exists u, principal = Some u /\ User.role u = ADMIN)
  /\ (authorize principal Admin <> Allowed ->
      authorize principal Admin = Denied Forbidden)
  /\ (forall level, (level, principal) <> (Admin, None) ->
      authorize principal level = authorize_table principal level).
Proof.
  split; [reflexivity|].
  split.
  { destruct principal; split; try discriminate; try reflexivity.
    intros H; now elim H. }
  split; [now intros ->|].
  split.
  { unfold authorize; simpl. rewrite <- requireAdmin_allows.
    destruct (requireAdmin principal); split; try discriminate; reflexivity. }
  split.
  { destruct principal as [[i e p a [|] c]|]; cbn; intros H;
      try reflexivity; now elim H. }
  intros [| |] H; destruct principal as [[i e p a [|] c]|];
    try reflexivity; now elim H.
Qed.

(** ** Storage facts shared by the properties below *)

Lemma insert_desc_perm (v : Video.t) (l : list Video.t) :
  Permutation (v :: l) (insert_desc v l).
Proof.
  induction l as [|w l IH]; simpl.
  - apply Permutation_refl.
  - destruct (created_before v w).
    + apply Permutation_refl.
    + eapply perm_trans; [apply perm_swap|]. now apply perm_skip.
Qed.

Lemma order_desc_perm (l : list Video.t) : Permutation l (order_desc l).
Proof.
  induction l as [|v l IH]; simpl.
  - apply perm_nil.
  - eapply perm_trans; [apply perm_skip, IH | apply insert_desc_perm].
Qed.

Lemma order_desc_length (l : list Video.t) :
  List.length (order_desc l) = List.length l.
Proof. symmetry. apply Permutation_length, order_desc_perm. Qed.

Lemma route_allowed (mw : option User.t -> option Response)
    (user : option User.t) (h : M Response) (s : Store) :
  mw user = None -> route mw user h s = try_catch next_error h s.
Proof. intros H. unfold route. now rewrite H. Qed.

Lemma route_rejected (mw : option User.t -> option Response)
    (user : option User.t) (h : M Response) (s : Store) (r : Response) :
  mw user = Some r -> route mw user h s = (r, s).
Proof. intros H. unfold route. now rewrite H. Qed.

(** ** Projections *)

Lemma has_key_jopt {A} (k : string) (f : A -> json) (o : option A) :
  (forall a, has_key k (f a) = false) -> has_key k (jopt f o) = false.
Proof. intros H. destruct o; simpl; [apply H | reflexivity]. Qed.

Ltac scalar_fields :=
  simpl; rewrite ?has_key_jopt by (intros; reflexivity); reflexivity.

Lemma publicVideo_hides_sourceUrl (v : Video.t) :
  has_key "sourceUrl" (publicVideo v) = false.
Proof. unfold publicVideo. scalar_fields. Qed.

Lemma publicVideo_keys (v : Video.t) :
  exists fields,
    publicVideo v = JObj fields
    /\ keys fields =
       ["id"; "title"; "description"; "thumbnailUrl"; "duration"; "views";
        "canPlay"; "canShare"; "canDownload"; "createdAt"].
Proof. eexists; split; reflexivity. Qed.

Lemma existsb_map_false {A B} (p : B -> bool) (f : A -> B) (l : list A) :
  (forall a, p (f a) = false) -> existsb p (map f l) = false.
Proof.
  intros H. induction l as [|a l IH]; simpl; [reflexivity|].
  now rewrite H, IH.
Qed.

(** C1: whoever asks, and whatever the catalog holds, no object in the
    answer of [GET /api/videos] has a [sourceUrl] key; for an authenticated
    caller the answer is the array of the projections of all stored
    videos, each with exactly the ten public keys. *)
Theorem list_view_never_exposes_sourceUrl
    (principal : option User.t) (s : Store) :
  body_has_key "sourceUrl" (body (fst (get_api_videos principal s))) = false
  /\ (forall u, principal = Some u ->
      fst (get_api_videos principal s)
      = mkResponse 200 (BJson (JArr (map publicVideo (order_desc (videos s)))))
      /\ List.length (order_desc (videos s)) = List.length (videos s)).
Proof.
  split.
  - unfold get_api_videos. destruct principal as [u|].
    + rewrite route_allowed by reflexivity. simpl.
      apply existsb_map_false, publicVideo_hides_sourceUrl.
    + reflexivity.
  - intros u ->. split; [reflexivity | apply order_desc_length].
Qed.

Lemma list_view_never_exposes_sourceUrl_witness :
  fst (get_api_videos (Some alice) library)
  = mkResponse 200 (BJson (JArr (map publicVideo (order_desc (videos library)))))
  /\ List.length (order_desc (videos library)) = List.length (videos library).
Proof.
  apply (proj2 (list_view_never_exposes_sourceUrl (Some alice) library) alice).
  reflexivity.
Defined.

Lemma authorize_decisions_witness :
  authorize None Authenticated = Denied Unauthenticated
  /\ authorize (Some alice) Admin = Denied Forbidden
  /\ authorize (Some root) Admin = authorize_table (Some root) Admin.
Proof.
  split; [|split].
  - destruct (authorize_decisions None) as (_ & _ & H & _).
    apply H. reflexivity.
  - destruct (authorize_decisions (Some alice)) as (_ & _ & _ & _ & H & _).
    apply H. discriminate.
  - destruct (authorize_decisions (Some root)) as (_ & _ & _ & _ & _ & H).
    apply H. discriminate.
Defined.

(** ** Download gate *)

Lemma download_answer (u : User.t) (id : string) (s : Store) :
  get_api_videos_id_download (Some u) id s
  = (match find_video id s with
     | None => message 404 "Video not found"
     | Some video =>
         if falsy (Video.canDownload video)
         then message 403 "Download not allowed for this video"
         else mkResponse 302 (BRedirect (Video.sourceUrl video))
     end, s).
Proof.
  unfold get_api_videos_id_download, find_video.
  rewrite route_allowed by reflexivity.
  unfold try_catch, bind, getVideo, gets.
  destruct (find (has_video_id id) (videos s)) as [v|]; [|reflexivity].
  now destruct (falsy (Video.canDownload v)).
Qed.

(** C3: for a stored video and any authenticated caller, the download
    route redirects to the source iff [canDownload] is true, refuses with
    403 otherwise, and answers every caller alike, ADMIN included. *)
Theorem download_allowed_iff_canDownload
    (s : Store) (id : string) (video : Video.t) (u : User.t) :
  find_video id s = Some video ->
  let answer := fst (get_api_videos_id_download (Some u) id s) in
  (answer = mkResponse 302 (BRedirect (Video.sourceUrl video))
   <-> Video.canDownload video = Some true)
  /\ (Video.canDownload video <> Some true ->
      answer = message 403 "Download not allowed for this video")
  /\ (forall u' : User.t,
      get_api_videos_id_download (Some u') id s
      = get_api_videos_id_download (Some u) id s)
  /\ snd (get_api_videos_id_download (Some u) id s) = s.
Proof.
  intros F answer. subst answer.
  rewrite download_answer, F.
  assert (E : forall u' : User.t,
             get_api_videos_id_download (Some u') id s
             = (if falsy (Video.canDownload video)
                then message 403 "Download not allowed for this video"
                else mkResponse 302 (BRedirect (Video.sourceUrl video)), s))
    by (intros u'; now rewrite download_answer, F).
  destruct (Video.canDownload video) as [[|]|]; simpl in *;
    (split; [split; intros H; (reflexivity || discriminate H) |]);
    (split; [intros H; (reflexivity || now elim H) |]);
    (split; [intros u'; apply E | reflexivity]).
Qed.

Lemma download_allowed_iff_canDownload_witness :
  fst (get_api_videos_id_download (Some root) "v1" library)
  = message 403 "Download not allowed for this video"
  /\ get_api_videos_id_download (Some alice) "v1" library
     = get_api_videos_id_download (Some root) "v1" library.
Proof.
  pose proof (download_allowed_iff_canDownload library "v1" root
                (video := clip) eq_refl) as (_ & H & I & _).
  split; [apply H; discriminate | apply I].
Defined.

(** ** Admin statistics *)

Lemma fold_left_views (l : list Video.t) (a : Z) :
  fold_left (fun sum video => (sum + views_or_0 video)%Z) l a
  = (a + sum_views l)%Z.
Proof.
  revert a. induction l as [|v l IH]; intros a; simpl.
  - lia.
  - rewrite IH. lia.
Qed.

Lemma sum_views_perm (l l' : list Video.t) :
  Permutation l l' -> sum_views l = sum_views l'.
Proof.
  induction 1; simpl; lia.
Qed.

(** Two of the three totals are aggregates of the catalog; the third does
    not look at the [users] table. *)
Lemma stats_answer (u : User.t) (s : Store) :
  User.role u = ADMIN ->
  get_api_admin_stats (Some u) s
  = (mkResponse 200
       (BJson (stats_json (List.length (videos s)) 1249 (sum_views (videos s)))),
     s).
Proof.
  intros R. unfold get_api_admin_stats.
  rewrite route_allowed by now apply requireAdmin_admin.
  unfold try_catch, bind, getVideos, gets, ret.
  rewrite fold_left_views, order_desc_length.
  now rewrite <- (sum_views_perm (order_desc_perm (videos s))).
Qed.

(** C4: with two stored users and one video viewed five times, the
    statistics report [totalVideos = 1] and [totalViews = 5] but
    [totalUsers = 1249]. *)
Theorem stats_totalUsers_is_placeholder :
  fst (get_api_admin_stats (Some root) library)
  = mkResponse 200 (BJson (stats_json 1 1249 5))
  /\ List.length (users library) = 2
  /\ List.length (videos library) = 1
  /\ sum_views (videos library) = 5%Z.
Proof. repeat split. Qed.

(** ** Creating a video *)

Lemma insert_parse_fields (body : json) (d : InsertVideo.t) :
  insertVideoSchema_parse body = inl d ->
  body_field "title" body = Some (JStr (InsertVideo.title d))
  /\ body_field "sourceUrl" body = Some (JStr (InsertVideo.sourceUrl d)).
Proof.
  destruct body as [| | | | | |o]; try discriminate. simpl.
  destruct (jget "title" o) as [[]|]; try discriminate.
  destruct (jget "sourceUrl" o) as [[]|]; simpl;
    try (destruct (z_string_nullish (jget "description" o)); discriminate).
  destruct (z_string_nullish (jget "description" o)); [|discriminate].
  destruct (z_string_nullish (jget "thumbnailUrl" o)); [|discriminate].
  destruct (z_string_nullish (jget "duration" o)); [|discriminate].
  destruct (z_boolean_nullish (jget "canPlay" o)); [|discriminate].
  destruct (z_boolean_nullish (jget "canShare" o)); [|discriminate].
  destruct (z_boolean_nullish (jget "canDownload" o)); [|discriminate].
  simpl. intros [= <-]. now split.
Qed.

Lemma insert_parse_missing (body : json) :
  z_string (body_field "title" body) = None
  \/ z_string (body_field "sourceUrl" body) = None ->
  exists e, insertVideoSchema_parse body = inr e.
Proof.
  intros H.
  destruct (insertVideoSchema_parse body) as [d|e] eqn:P; [|now exists e].
  apply insert_parse_fields in P as [T S]. rewrite T, S in H.
  destruct H; discriminate.
Qed.

Lemma create_answer (uuid : string) (now : Z) (u : User.t) (body : json)
    (s : Store) :
  User.role u = ADMIN ->
  post_api_admin_videos uuid now (Some u) body s
  = match insertVideoSchema_parse body with
    | inr e => (invalid_video_data e, s)
    | inl d =>
        match createVideo uuid now d s with
        | Ok v s' => (mkResponse 201 (BJson (video_json v)), s')
        | Throw e s' => (next_error e, s')
        end
    end.
Proof.
  intros R. unfold post_api_admin_videos.
  rewrite route_allowed by now apply requireAdmin_admin.
  destruct (insertVideoSchema_parse body) as [d|e]; [|reflexivity].
  unfold try_catch, bind. now destruct (createVideo uuid now d s).
Qed.

Lemma invalid_video_data_status (e : ZodError) :
  status (invalid_video_data e) = 400.
Proof. now destruct e. Qed.

Lemma createVideo_result (uuid : string) (now : Z) (d : InsertVideo.t)
    (s s' : Store) (v : Video.t) :
  createVideo uuid now d s = Ok v s' ->
  videos s' = (videos s ++ [v])%list /\ users s' = users s
  /\ Video.id v = uuid
  /\ Video.title v = InsertVideo.title d
  /\ Video.sourceUrl v = InsertVideo.sourceUrl d
  /\ Video.views v = Some 0%Z
  /\ Video.createdAt v = Some now /\ Video.updatedAt v = Some now.
Proof.
  unfold createVideo.
  destruct (existsb (has_video_id uuid) (videos s)); [discriminate|].
  intros [= <- <-]. repeat split.
Qed.

Lemma createVideo_throws (uuid : string) (now : Z) (d : InsertVideo.t)
    (s s' : Store) (e : DbError) :
  createVideo uuid now d s = Throw e s' -> s' = s.
Proof.
  unfold createVideo.
  destruct (existsb (has_video_id uuid) (videos s)); [|discriminate].
  now intros [= _ <-].
Qed.

(** C5, as stated, fails: an admin who posts an empty title and an empty
    source gets 201 and the row is stored. *)
Lemma create_accepts_empty_title_and_sourceUrl :
  let r := post_api_admin_videos "v2" 3000 (Some root)
             (JObj [("title", JStr ""); ("sourceUrl", JStr "")]) library in
  status (fst r) = 201
  /\ videos (snd r)
     = [clip;
        Video.mk "v2" "" None "" None None (Some 0%Z)
                 (Some true) (Some true) (Some false)
                 (Some 3000%Z) (Some 3000%Z)].
Proof. split; reflexivity. Qed.

(** C5 (amended): the create route answers 400 "Invalid video data" and
    stores nothing whenever [title] or [sourceUrl] is missing or is not a
    string; it answers 201 only when both are strings, and then stores one
    new row with that title and source and a zero view counter; two
    strings, empty or not, with a fresh identifier are enough for 201. *)
Theorem create_requires_title_and_sourceUrl
    (uuid : string) (now : Z) (u : User.t) (body : json)
    (s s' : Store) (answer : Response) :
  User.role u = ADMIN ->
  post_api_admin_videos uuid now (Some u) body s = (answer, s') ->
  (z_string (body_field "title" body) = None
   \/ z_string (body_field "sourceUrl" body) = None ->
   (exists e, answer = invalid_video_data e) /\ status answer = 400 /\ s' = s)
  /\ (status answer = 201 ->
      exists t src v,
        body_field "title" body = Some (JStr t)
        /\ body_field "sourceUrl" body = Some (JStr src)
        /\ Video.title v = t /\ Video.sourceUrl v = src
        /\ Video.views v = Some 0%Z
        /\ videos s' = (videos s ++ [v])%list
        /\ answer = mkResponse 201 (BJson (video_json v)))
  /\ (status answer <> 201 -> s' = s)
  /\ (forall t src,
      body = JObj [("title", JStr t); ("sourceUrl", JStr src)] ->
      existsb (has_video_id uuid) (videos s) = false ->
      status answer = 201).
Proof.
  intros R E. rewrite create_answer in E by assumption.
  split; [|split; [|split]].
  - intros H. apply insert_parse_missing in H as [e P]. rewrite P in E.
    injection E as <- <-. split; [now exists e|].
    split; [apply invalid_video_data_status | reflexivity].
  - intros St. destruct (insertVideoSchema_parse body) as [d|e] eqn:P.
    + destruct (createVideo uuid now d s) as [v s1|e s1] eqn:C;
        injection E as <- <-; [|discriminate].
      apply insert_parse_fields in P as [T S].
      apply createVideo_result in C as (V & _ & _ & Ti & So & Vi & _).
      exists (InsertVideo.title d), (InsertVideo.sourceUrl d), v.
      repeat split; assumption.
    + injection E as <- <-. rewrite invalid_video_data_status in St.
      discriminate.
  - intros St. destruct (insertVideoSchema_parse body) as [d|e].
    + destruct (createVideo uuid now d s) as [v s1|e s1] eqn:C;
        injection E as <- <-.
      * now elim St.
      * now apply createVideo_throws in C.
    + now injection E as <- <-.
  - intros t src -> Fresh. simpl in E. unfold createVideo in E.
    rewrite Fresh in E. now injection E as <- <-.
Qed.

Lemma create_requires_title_and_sourceUrl_witness :
  status (fst (post_api_admin_videos "v2" 3000 (Some root)
                 (JObj [("title", JNull); ("sourceUrl", JStr "http://x")])
                 library))
  = 400
  /\ snd (post_api_admin_videos "v2" 3000 (Some root)
            (JObj [("title", JNull); ("sourceUrl", JStr "http://x")])
            library)
     = library.
Proof.
  destruct (create_requires_title_and_sourceUrl "v2" 3000 root
              (JObj [("title", JNull); ("sourceUrl", JStr "http://x")])
              library eq_refl eq_refl) as (H & _).
  destruct (H (or_introl eq_refl)) as (_ & A & B).
  split; [exact A | symmetry; exact B].
Defined.

(** ** Updating rows selected by their id *)

Section rows_by_id.

Variable id : string.
Variable f : Video.t -> Video.t.
Hypothesis f_keeps_id : forall v, Video.id (f v) = Video.id v.

Lemma find_updated_row (l : list Video.t) :
  find (has_video_id id) (update_where id f l) = option_map f (find (has_video_id id) l).
Proof.
  unfold update_where.
  induction l as [|v l IH]; simpl; [reflexivity|].
  destruct (has_video_id id v) eqn:H.
  - unfold has_video_id in *. now rewrite f_keeps_id, H.
  - now rewrite H.
Qed.

Lemma find_other_row (i : string) (l : list Video.t) :
  i <> id ->
  find (has_video_id i) (update_where id f l) = find (has_video_id i) l.
Proof.
  intros N. unfold update_where.
  induction l as [|v l IH]; simpl; [reflexivity|].
  destruct (has_video_id id v) eqn:H; [|now rewrite IH].
  unfold has_video_id in *. rewrite f_keeps_id.
  apply String.eqb_eq in H.
  destruct (String.eqb_spec (Video.id v) i) as [E|_]; [congruence | exact IH].
Qed.

Lemma update_no_row (l : list Video.t) :
  find (has_video_id id) l = None -> update_where id f l = l.
Proof.
  unfold update_where.
  induction l as [|v l IH]; simpl; [reflexivity|].
  destruct (has_video_id id v); [discriminate|].
  intros H. now rewrite IH.
Qed.

End rows_by_id.

Lemma find_video_id (id : string) (s : Store) (v : Video.t) :
  find_video id s = Some v -> Video.id v = id.
Proof.
  intros H. apply find_some in H as [_ H]. now apply String.eqb_eq in H.
Qed.

Lemma NoDup_map_inj {A B} (f : A -> B) (l : list A) (a b : A) :
  NoDup (map f l) -> In a l -> In b l -> f a = f b -> a = b.
Proof.
  induction l as [|x l IH]; simpl; [contradiction|].
  intros N Ia Ib E. inversion N as [|? ? Nx Nl]; subst.
  destruct Ia as [<-|Ia], Ib as [<-|Ib]; trivial.
  - elim Nx. rewrite E. now apply in_map.
  - elim Nx. rewrite <- E. now apply in_map.
  - now apply IH.
Qed.

(** ** Partial update *)

Lemma update_parse_fields (body : json) (d : UpdateVideo.t) :
  updateVideoSchema_parse body = inl d ->
  z_string_optional (body_field "title" body) = Some (UpdateVideo.title d)
  /\ z_string_nullish (body_field "description" body)
     = Some (UpdateVideo.description d)
  /\ z_string_optional (body_field "sourceUrl" body)
     = Some (UpdateVideo.sourceUrl d)
  /\ z_string_nullish (body_field "thumbnailUrl" body)
     = Some (UpdateVideo.thumbnailUrl d)
  /\ z_string_nullish (body_field "duration" body)
     = Some (UpdateVideo.duration d)
  /\ z_boolean_nullish (body_field "canPlay" body)
     = Some (UpdateVideo.canPlay d)
  /\ z_boolean_nullish (body_field "canShare" body)
     = Some (UpdateVideo.canShare d)
  /\ z_boolean_nullish (body_field "canDownload" body)
     = Some (UpdateVideo.canDownload d).
Proof.
  destruct body as [| | | | | |o]; try discriminate.
  unfold updateVideoSchema_parse, body_field.
  destruct (z_string_optional (jget "title" o)); [|discriminate].
  destruct (z_string_nullish (jget "description" o)); [|discriminate].
  destruct (z_string_optional (jget "sourceUrl" o)); [|discriminate].
  destruct (z_string_nullish (jget "thumbnailUrl" o)); [|discriminate].
  destruct (z_string_nullish (jget "duration" o)); [|discriminate].
  destruct (z_boolean_nullish (jget "canPlay" o)); [|discriminate].
  destruct (z_boolean_nullish (jget "canShare" o)); [|discriminate].
  destruct (z_boolean_nullish (jget "canDownload" o)); [|discriminate].
  simpl. intros [= <-]. repeat split.
Qed.

Lemma set_video_keeps_id (d : UpdateVideo.t) (now : Z) (v : Video.t) :
  Video.id (set_video d now v) = Video.id v.
Proof. reflexivity. Qed.

Lemma update_answer (now : Z) (u : User.t) (id : string) (body : json)
    (s : Store) :
  User.role u = ADMIN ->
  put_api_admin_videos_id now (Some u) id body s
  = match updateVideoSchema_parse body with
    | inr e => (invalid_video_data e, s)
    | inl d =>
        (match find_video id s with
         | None => message 404 "Video not found"
         | Some old => mkResponse 200 (BJson (video_json (set_video d now old)))
         end,
         mkStore (users s) (update_where id (set_video d now) (videos s)))
    end.
Proof.
  intros R. unfold put_api_admin_videos_id.
  rewrite route_allowed by now apply requireAdmin_admin.
  destruct (updateVideoSchema_parse body) as [d|e]; [|reflexivity].
  unfold try_catch, bind, updateVideo, find_video.
  rewrite (find_updated_row id (set_video d now) (set_video_keeps_id d now)).
  now destruct (find (has_video_id id) (videos s)).
Qed.

Ltac kept parsed :=
  let B := fresh in
  intros B; rewrite B in parsed; simpl in parsed;
  injection parsed as <-; reflexivity.

(** C6: an update of a stored video answers with the stored row, in which
    the id, the view counter and the creation time are the old ones
    whatever the body holds, [updatedAt] is the current time, and each of
    the eight editable columns whose key is missing from the body holds
    its old value; no other row and no user changes, and a rejected
    request changes nothing. *)
Theorem update_changes_only_supplied_fields
    (now : Z) (u : User.t) (id : string) (body : json)
    (s s' : Store) (answer : Response) (old : Video.t) :
  User.role u = ADMIN ->
  find_video id s = Some old ->
  put_api_admin_videos_id now (Some u) id body s = (answer, s') ->
  (status answer = 200 ->
   exists new,
     find_video id s' = Some new
     /\ answer = mkResponse 200 (BJson (video_json new))
     /\ Video.id new = Video.id old
     /\ Video.views new = Video.views old
     /\ Video.createdAt new = Video.createdAt old
     /\ Video.updatedAt new = Some now
     /\ (body_field "title" body = None -> Video.title new = Video.title old)
     /\ (body_field "description" body = None ->
         Video.description new = Video.description old)
     /\ (body_field "sourceUrl" body = None ->
         Video.sourceUrl new = Video.sourceUrl old)
     /\ (body_field "thumbnailUrl" body = None ->
         Video.thumbnailUrl new = Video.thumbnailUrl old)
     /\ (body_field "duration" body = None ->
         Video.duration new = Video.duration old)
     /\ (body_field "canPlay" body = None ->
         Video.canPlay new = Video.canPlay old)
     /\ (body_field "canShare" body = None ->
         Video.canShare new = Video.canShare old)
     /\ (body_field "canDownload" body = None ->
         Video.canDownload new = Video.canDownload old))
  /\ (status answer <> 200 -> s' = s)
  /\ (forall i, i <> id -> find_video i s' = find_video i s)
  /\ users s' = users s.
Proof.
  intros R F E. rewrite update_answer in E by assumption.
  destruct (updateVideoSchema_parse body) as [d|e] eqn:P.
  - rewrite F in E. injection E as <- <-.
    split; [|split; [|split]].
    + intros _. exists (set_video d now old).
      apply update_parse_fields in P
        as (Pt & Pd & Ps & Pth & Pdu & Pcp & Pcs & Pcd).
      split.
      { unfold find_video in *; simpl.
        rewrite (find_updated_row id (set_video d now)
                   (set_video_keeps_id d now)).
        now rewrite F. }
      do 5 (split; [reflexivity|]).
      unfold set_video; simpl.
      split; [kept Pt|]. split; [kept Pd|]. split; [kept Ps|].
      split; [kept Pth|]. split; [kept Pdu|]. split; [kept Pcp|].
      split; [kept Pcs | kept Pcd].
    + intros H. now elim H.
    + intros i N. unfold find_video; simpl.
      now apply find_other_row; [apply set_video_keeps_id|].
    + reflexivity.
  - injection E as <- <-. split; [|repeat split].
    intros H. rewrite invalid_video_data_status in H. discriminate.
Qed.

Lemma update_changes_only_supplied_fields_witness :
  exists new,
    find_video "v1"
      (snd (put_api_admin_videos_id 9000 (Some root) "v1"
              (JObj [("title", JStr "New"); ("views", JNum 99);
                     ("createdAt", JNum 1)])
              library))
    = Some new
    /\ Video.description new = Some "X"
    /\ Video.views new = Some 5%Z
    /\ Video.createdAt new = Some 2000%Z
    /\ Video.updatedAt new = Some 9000%Z.
Proof.
  destruct (update_changes_only_supplied_fields 9000 root "v1"
              (JObj [("title", JStr "New"); ("views", JNum 99);
                     ("createdAt", JNum 1)])
              library eq_refl eq_refl eq_refl) as (H & _).
  destruct (H eq_refl) as (new & F & _ & _ & V & C & U & _ & D & _).
  exists new. split; [exact F|]. split; [apply D; reflexivity|].
  split; [exact V|]. split; [exact C | exact U].
Defined.

(** An update of an id that is not stored changes nothing, whatever the
    body. *)
Lemma update_unknown_id (now : Z) (u : User.t) (id : string) (body : json)
    (s : Store) :
  User.role u = ADMIN ->
  find_video id s = None ->
  snd (put_api_admin_videos_id now (Some u) id body s) = s
  /\ status (fst (put_api_admin_videos_id now (Some u) id body s)) <> 200.
Proof.
  intros R F. rewrite update_answer by assumption.
  destruct (updateVideoSchema_parse body) as [d|e]; simpl.
  - rewrite F. unfold find_video in F. rewrite (update_no_row _ _ _ F).
    split; [now destruct s | discriminate].
  - rewrite invalid_video_data_status. split; [reflexivity | discriminate].
Qed.

(** ** What the storage methods maintain *)


Lemma Forall_update (P : Video.t -> Prop) (p : Video.t -> bool)
    (f : Video.t -> Video.t) (l : list Video.t) :
  (forall v, P v -> P (f v)) ->
  Forall P l -> Forall P (map (fun v => if p v then f v else v) l).
Proof.
  intros K. induction 1 as [|v l Pv _ IH]; simpl; constructor; trivial.
  destruct (p v); auto.
Qed.







(** A store with one freshly created video is reachable. *)
Example reachable_one_video :
  reachable
    (mkStore []
       [Video.mk "v1" "Clip" None "http://cdn/clip.mp4" None None (Some 0%Z)
                 (Some true) (Some true) (Some false)
                 (Some 2000%Z) (Some 2000%Z)]).
Proof.
  eapply reachable_step; [apply reachable_empty|].
  apply (writes_createVideo "v1" 2000
           (InsertVideo.mk "Clip" Absent "http://cdn/clip.mp4"
                           Absent Absent Absent Absent Absent)
           (mkStore [] [])
           (s' := mkStore [] _) eq_refl).
Qed.

(** ** Reading a video's detail *)

Lemma set_views_keeps_id (n : option Z) (v : Video.t) :
  Video.id (set_views n v) = Video.id v.
Proof. reflexivity. Qed.

Lemma views_within_range (id : string) (s : Store) (v : Video.t) (n : Z) :
  video_ids_unique s ->
  find_video id s = Some v ->
  Video.views v = Some n ->
  (n < INT4_MAX)%Z ->
  existsb (views_overflow id) (videos s) = false.
Proof.
  intros U F V L.
  destruct (existsb (views_overflow id) (videos s)) eqn:E; [|reflexivity].
  apply existsb_exists in E as (w & Iw & O).
  apply andb_prop in O as [Hw O]. apply String.eqb_eq in Hw.
  pose proof (find_video_id _ _ F) as Hv.
  apply find_some in F as [Iv _].
  assert (w = v) as -> by (apply (@NoDup_map_inj _ _ Video.id (videos s) w v U Iw Iv); congruence).
  rewrite V in O. apply Z.leb_le in O. lia.
Qed.

Lemma detail_answer (u : User.t) (id : string) (s : Store) :
  get_api_videos_id (Some u) id s
  = match find_video id s with
    | None => (message 404 "Video not found", s)
    | Some v =>
        if existsb (views_overflow id) (videos s)
        then (next_error IntegerOutOfRange, s)
        else
          (mkResponse 200 (BJson (detailedVideo v)),
           mkStore (users s) (update_where id increment_views (videos s)))
    end.
Proof.
  unfold get_api_videos_id.
  rewrite route_allowed by reflexivity.
  unfold try_catch, bind, getVideo, gets.
  fold (find_video id s).
  destruct (find_video id s) as [v|] eqn:F; [|reflexivity].
  rewrite (find_video_id _ _ F). unfold incrementVideoViews.
  now destruct (existsb (views_overflow id) (videos s)).
Qed.



(** The counter column is nullable.  On a row whose counter is NULL the
    SQL increment keeps NULL while the answer shows 1; [reachable_invariant]
    below shows that the storage methods never produce such a row. *)
Lemma detail_read_null_counter :
  let unseen := set_views None clip in
  let r := get_api_videos_id (Some alice) "v1" (mkStore [alice] [unseen]) in
  body_field "views" (detailedVideo unseen) = Some (JNum 1)
  /\ fst r = mkResponse 200 (BJson (detailedVideo unseen))
  /\ find_video "v1" (snd r) = Some unseen.
Proof. repeat split. Qed.

(** ** Identity: login and registration *)

Lemma user_json_keys (user : User.t) :
  exists fields,
    user_json user = JObj fields
    /\ keys fields = ["id"; "email"; "avatarUrl"; "role"; "createdAt"].
Proof. eexists. split; reflexivity. Qed.

Lemma user_json_hides_password (user : User.t) :
  has_key "password" (user_json user) = false.
Proof. unfold user_json. destruct (User.role user); scalar_fields. Qed.

Lemma stored_email_is_taken (e : string) (s : Store) (u : User.t) :
  find_user_by_email e s = Some u ->
  existsb (has_email e) (users s) = true.
Proof.
  intros F. apply find_some in F as [I H].
  apply existsb_exists. now exists u.
Qed.

Section auth_properties.

Variable bcrypt_hash : string -> string -> string.
Variable bcrypt_compare : string -> string -> bool.

Lemma verify_answer (email password : string) (s : Store) :
  verify bcrypt_compare email password s
  = Ok match find_user_by_email email s with
       | None => VerifiedFalse
       | Some u =>
           if bcrypt_compare password (User.password u)
           then VerifiedUser u
           else VerifiedFalse
       end s.
Proof.
  unfold verify, bind, getUserByEmail, gets, find_user_by_email.
  destruct (find (has_email email) (users s)) as [u|]; [|reflexivity].
  unfold comparePasswords. now destruct (bcrypt_compare password (User.password u)).
Qed.

Lemma login_answer (e p : string) (session : Session) (s : Store) :
  truthy (Some e) = true -> truthy (Some p) = true ->
  post_api_login bcrypt_compare (Some e) (Some p) session s
  = match find_user_by_email e s with
    | None => ((mkResponse 401 (BText "Unauthorized"), session), s)
    | Some u =>
        if bcrypt_compare p (User.password u)
        then ((mkResponse 200 (BJson (user_json u)), Some (User.id u)), s)
        else ((mkResponse 401 (BText "Unauthorized"), session), s)
    end.
Proof.
  intros Te Tp.
  unfold post_api_login, try_catch, bind, passport_authenticate_local.
  rewrite Te, Tp. cbn [negb orb]. unfold bind. rewrite verify_answer.
  destruct (find_user_by_email e s) as [u|]; [|reflexivity].
  now destruct (bcrypt_compare p (User.password u)).
Qed.

Lemma register_answer (uuid salt : string) (now : Z)
    (email password : option string) (session : Session) (s : Store) :
  post_api_register bcrypt_hash uuid salt now email password session s
  = match email, password with
    | Some e, Some p =>
        if negb (truthy email) || negb (truthy password)
        then ((message 400 "Email and password are required", session), s)
        else
          match find_user_by_email e s with
          | Some _ =>
              ((message 400 "User with this email already exists", session), s)
          | None =>
              match createUser uuid now
                      (InsertUser.mk e (bcrypt_hash p salt)) s with
              | Ok user s1 =>
                  ((mkResponse 201 (BJson (user_json user)),
                    Some (User.id user)), s1)
              | Throw err s1 => ((next_error err, session), s1)
              end
          end
    | _, _ => ((message 400 "Email and password are required", session), s)
    end.
Proof.
  unfold post_api_register, try_catch.
  destruct email as [e|], password as [p|]; try reflexivity.
  destruct (negb (truthy (Some e)) || negb (truthy (Some p))); [reflexivity|].
  unfold bind, getUserByEmail, gets, find_user_by_email, hashPassword.
  destruct (find (has_email e) (users s)); [reflexivity|].
  now destruct (createUser uuid now (InsertUser.mk e (bcrypt_hash p salt)) s).
Qed.

(** C8: an attempt with an email nobody has and an attempt with a stored
    email and a credential that does not verify get the same value from
    the verify callback, [false], and the same answer from the login
    route, 401 with no session and no change of the store. *)
Theorem verify_hides_unknown_email
    (s : Store) (e1 p1 e2 p2 : string) (u : User.t) :
  find_user_by_email e1 s = None ->
  find_user_by_email e2 s = Some u ->
  bcrypt_compare p2 (User.password u) = false ->
  verify bcrypt_compare e1 p1 s = Ok VerifiedFalse s
  /\ verify bcrypt_compare e2 p2 s = Ok VerifiedFalse s
  /\ verify bcrypt_compare e1 p1 s = verify bcrypt_compare e2 p2 s
  /\ (forall session,
      truthy (Some e1) = true -> truthy (Some p1) = true ->
      truthy (Some e2) = true -> truthy (Some p2) = true ->
      post_api_login bcrypt_compare (Some e1) (Some p1) session s
      = ((mkResponse 401 (BText "Unauthorized"), session), s)
      /\ post_api_login bcrypt_compare (Some e2) (Some p2) session s
         = ((mkResponse 401 (BText "Unauthorized"), session), s)).
Proof.
  intros F1 F2 W.
  assert (V1 : verify bcrypt_compare e1 p1 s = Ok VerifiedFalse s)
    by now rewrite verify_answer, F1.
  assert (V2 : verify bcrypt_compare e2 p2 s = Ok VerifiedFalse s)
    by now rewrite verify_answer, F2, W.
  split; [exact V1|]. split; [exact V2|]. split; [congruence|].
  intros session T1 T2 T3 T4.
  rewrite !login_answer by assumption. now rewrite F1, F2, W.
Qed.

(** C9: registering an email that a stored user already has answers 400,
    with the message "User with this email already exists" whenever both
    credentials are non-empty; the store, and so that user's row with its
    password hash, and the session stay as they were; the [users] table
    itself refuses a second row with that email. *)
Theorem register_existing_email_fails
    (uuid salt : string) (now : Z) (e : string) (password : option string)
    (session session' : Session) (s s' : Store) (u : User.t)
    (answer : Response) :
  find_user_by_email e s = Some u ->
  post_api_register bcrypt_hash uuid salt now (Some e) password session s
  = ((answer, session'), s') ->
  status answer = 400
  /\ s' = s
  /\ session' = session
  /\ find_user_by_email e s' = Some u
  /\ (truthy (Some e) = true -> truthy password = true ->
      answer = message 400 "User with this email already exists")
  /\ (forall hash,
      createUser uuid now (InsertUser.mk e hash) s = Throw UniqueViolation s).
Proof.
  intros F E. rewrite register_answer in E.
  assert (C : forall hash,
             createUser uuid now (InsertUser.mk e hash) s
             = Throw UniqueViolation s).
  { intros hash. unfold createUser; simpl.
    now rewrite (stored_email_is_taken _ _ F), orb_true_r. }
  destruct password as [p|].
  - destruct (truthy (Some e)) eqn:Te, (truthy (Some p)) eqn:Tp; simpl in E;
      try rewrite F in E; injection E as <- <- <-;
      repeat split; trivial; discriminate.
  - injection E as <- <- <-. repeat split; trivial; discriminate.
Qed.

Lemma user_json_fields (user : User.t) :
  user_json user
  = JObj [ ("id", JStr (User.id user));
           ("email", JStr (User.email user));
           ("avatarUrl",
            match User.avatarUrl user with
            | Some a => JStr a
            | None => JNull
            end);
           ("role",
            JStr match User.role user with
                 | USER => "USER"
                 | ADMIN => "ADMIN"
                 end);
           ("createdAt",
            match User.createdAt user with
            | Some t => JDate t
            | None => JNull
            end) ].
Proof. unfold user_json. now destruct (User.role user). Qed.

(** C10: the answers of register, login and the current-user lookup never
    carry a [password] key.  A successful one is the object of exactly the
    five keys id, email, avatarUrl, role and createdAt, each holding that
    column of the user concerned: for register the user just stored (the
    drawn id, the given email, role USER, no avatar, the current time),
    for login the stored user with that email whose hash the password
    verifies against, for the current-user lookup the user of the
    request. *)
Theorem auth_answers_hide_password :
  let view := fun user : User.t =>
    JObj [ ("id", JStr (User.id user));
           ("email", JStr (User.email user));
           ("avatarUrl",
            match User.avatarUrl user with
            | Some a => JStr a
            | None => JNull
            end);
           ("role",
            JStr match User.role user with
                 | USER => "USER"
                 | ADMIN => "ADMIN"
                 end);
           ("createdAt",
            match User.createdAt user with
            | Some t => JDate t
            | None => JNull
            end) ] in
  (forall uuid salt now email password session s,
      let out := post_api_register bcrypt_hash uuid salt now
                   email password session s in
      let r := fst (fst out) in
      body_has_key "password" (body r) = false
      /\ (status r = 201 ->
          exists e p,
            email = Some e /\ password = Some p
            /\ let user :=
                 User.mk uuid e (bcrypt_hash p salt) None USER (Some now) in
               body r = BJson (view user)
               /\ users (snd out) = (users s ++ [user])%list
               /\ snd (fst out) = Some uuid))
  /\ (forall email password session s,
      let out := post_api_login bcrypt_compare email password session s in
      let r := fst (fst out) in
      body_has_key "password" (body r) = false
      /\ (status r = 200 ->
          exists e p user,
            email = Some e /\ password = Some p
            /\ find_user_by_email e s = Some user
            /\ bcrypt_compare p (User.password user) = true
            /\ body r = BJson (view user)
            /\ snd (fst out) = Some (User.id user)))
  /\ (forall user : option User.t,
      let r := get_api_user user in
      body_has_key "password" (body r) = false
      /\ (forall u, user = Some u -> r = mkResponse 200 (BJson (view u)))
      /\ (user = None -> r = mkResponse 401 (BText "Unauthorized")))
  /\ (forall user,
      has_key "password" (view user) = false
      /\ exists fields,
          view user = JObj fields
          /\ keys fields = ["id"; "email"; "avatarUrl"; "role"; "createdAt"]).
Proof.
  intros view.
  assert (V : forall u, view u = user_json u)
    by (intros u; subst view; symmetry; apply user_json_fields).
  split; [|split; [|split]].
  - intros uuid salt now email password session s out r. subst out r.
    rewrite register_answer.
    destruct email as [e|], password as [p|];
      try (split; [reflexivity | discriminate]).
    destruct (negb (truthy (Some e)) || negb (truthy (Some p)));
      [split; [reflexivity | discriminate]|].
    destruct (find_user_by_email e s);
      [split; [reflexivity | discriminate]|].
    unfold createUser. simpl InsertUser.email. simpl InsertUser.password.
    destruct (existsb (has_user_id uuid) (users s)
              || existsb (has_email e) (users s));
      [split; [reflexivity | discriminate]|].
    split; [apply user_json_hides_password|].
    intros _. exists e, p. split; [reflexivity|]. split; [reflexivity|].
    simpl. rewrite V. now repeat split.
  - intros email password session s out r. subst out r.
    unfold post_api_login, try_catch, bind, passport_authenticate_local.
    destruct email as [e|], password as [p|];
      try (split; [reflexivity | discriminate]).
    destruct (negb (truthy (Some e)) || negb (truthy (Some p)));
      [split; [reflexivity | discriminate]|].
    unfold bind. rewrite verify_answer.
    destruct (find_user_by_email e s) as [u|] eqn:F;
      [|split; [reflexivity | discriminate]].
    destruct (bcrypt_compare p (User.password u)) eqn:C;
      [|split; [reflexivity | discriminate]].
    split; [apply user_json_hides_password|].
    intros _. exists e, p, u. simpl. rewrite V. now repeat split.
  - intros [user|] r; subst r; simpl.
    + split; [apply user_json_hides_password|].
      split; [|discriminate]. intros u [= <-]. now rewrite V.
    + split; [reflexivity|]. split; [discriminate | reflexivity].
  - intros user. rewrite V. split; [apply user_json_hides_password|].
    apply user_json_keys.
Qed.

End auth_properties.

Lemma verify_hides_unknown_email_witness :
  verify sample_compare "nobody@example.org" "secret" library
  = verify sample_compare "alice@example.org" "wrong" library
  /\ post_api_login sample_compare
       (Some "nobody@example.org") (Some "secret") None library
     = post_api_login sample_compare
         (Some "alice@example.org") (Some "wrong") None library.
Proof.
  destruct (verify_hides_unknown_email sample_compare library
              "nobody@example.org" "secret" "alice@example.org" "wrong"
              (u := alice) eq_refl eq_refl eq_refl)
    as (_ & _ & V & L).
  destruct (L None eq_refl eq_refl eq_refl eq_refl) as [L1 L2].
  split; [exact V | now rewrite L1, L2].
Defined.

Lemma register_existing_email_fails_witness :
  status (fst (fst (post_api_register sample_hash "u9" "$2a$12$" 5000
                      (Some "alice@example.org") (Some "hunter2") None
                      library)))
  = 400
  /\ find_user_by_email "alice@example.org"
       (snd (post_api_register sample_hash "u9" "$2a$12$" 5000
               (Some "alice@example.org") (Some "hunter2") None library))
     = Some alice.
Proof.
  destruct (register_existing_email_fails sample_hash "u9" "$2a$12$" 5000
              "alice@example.org" (Some "hunter2") None library
              (u := alice) eq_refl eq_refl)
    as (A & _ & _ & B & _).
  split; [exact A | exact B].
Defined.

Lemma auth_answers_hide_password_witness :
  body (fst (fst (post_api_register sample_hash "u9" "$2a$12$" 5000
                    (Some "bob@example.org") (Some "hunter2") None
                    library)))
  = BJson (JObj [ ("id", JStr "u9");
                  ("email", JStr "bob@example.org");
                  ("avatarUrl", JNull);
                  ("role", JStr "USER");
                  ("createdAt", JDate 5000) ])
  /\ get_api_user (Some alice)
     = mkResponse 200
         (BJson (JObj [ ("id", JStr "u1");
                        ("email", JStr "alice@example.org");
                        ("avatarUrl", JNull);
                        ("role", JStr "USER");
                        ("createdAt", JDate 1000) ])).
Proof.
  destruct (auth_answers_hide_password sample_hash sample_compare)
    as (R & _ & U & _).
  split.
  - destruct (R "u9" "$2a$12$" 5000%Z (Some "bob@example.org")
                (Some "hunter2") None library) as (_ & H).
    destruct (H eq_refl) as (e & p & Ee & Ep & B & _).
    injection Ee as <-. injection Ep as <-. exact B.
  - destruct (U (Some alice)) as (_ & H & _).
    apply (H alice). reflexivity.
Defined.

(** * Further properties of the routes and the storage *)

(** ** Deleting a video *)

Lemma filter_out_absent (id : string) (l : list Video.t) :
  find (has_video_id id) l = None ->
  filter (fun v => negb (has_video_id id v)) l = l
  /\ filter (has_video_id id) l = [].
Proof.
  induction l as [|v l IH]; simpl; [now split|].
  destruct (has_video_id id v); [discriminate|]. simpl.
  intros F. destruct (IH F) as [A B]. now rewrite A.
Qed.

Lemma find_after_delete (id i : string) (l : list Video.t) :
  find (has_video_id i) (filter (fun v => negb (has_video_id id v)) l)
  = if String.eqb i id then None else find (has_video_id i) l.
Proof.
  induction l as [|v l IH]; simpl.
  - now destruct (String.eqb i id).
  - destruct (has_video_id id v) eqn:H; simpl.
    + rewrite IH. apply String.eqb_eq in H.
      destruct (String.eqb_spec i id) as [->|Ni]; [reflexivity|].
      destruct (has_video_id i v) eqn:Hi; [|reflexivity].
      apply String.eqb_eq in Hi. congruence.
    + destruct (has_video_id i v) eqn:Hi; [|exact IH].
      apply String.eqb_eq in Hi. apply String.eqb_neq in H.
      destruct (String.eqb_spec i id); [congruence | reflexivity].
Qed.

Lemma delete_answer (u : User.t) (id : string) (s : Store) :
  User.role u = ADMIN ->
  delete_api_admin_videos_id (Some u) id s
  = (if (0 <? List.length (filter (has_video_id id) (videos s)))%nat
     then mkResponse 204 BEmpty
     else message 404 "Video not found",
     mkStore (users s)
             (filter (fun v => negb (has_video_id id v)) (videos s))).
Proof.
  intros R. unfold delete_api_admin_videos_id.
  rewrite route_allowed by now apply requireAdmin_admin.
  unfold try_catch, bind, deleteVideo.
  now destruct (0 <? List.length (filter (has_video_id id) (videos s)))%nat.
Qed.

(** X1: Deleting a stored video answers 204 and removes it: it is no longer
    found, every other video is found as before and the users are
    untouched. *)
Theorem delete_removes_only_that_video
    (u : User.t) (id : string) (s s' : Store) (answer : Response)
    (v : Video.t) :
  User.role u = ADMIN ->
  find_video id s = Some v ->
  delete_api_admin_videos_id (Some u) id s = (answer, s') ->
  answer = mkResponse 204 BEmpty
  /\ find_video id s' = None
  /\ (forall i, i <> id -> find_video i s' = find_video i s)
  /\ users s' = users s.
Proof.
  intros R F E. rewrite delete_answer in E by assumption.
  injection E as <- <-. unfold find_video in *. simpl.
  split; [|split; [|split]].
  - apply find_some in F as [I H].
    destruct (filter (has_video_id id) (videos s)) as [|w l] eqn:Fl;
      [|reflexivity].
    assert (In v []) as [].
    rewrite <- Fl. now apply filter_In.
  - rewrite find_after_delete. now rewrite String.eqb_refl.
  - intros i N. rewrite find_after_delete.
    now destruct (String.eqb_spec i id).
  - reflexivity.
Qed.

Lemma delete_removes_only_that_video_witness :
  fst (delete_api_admin_videos_id (Some root) "v1" library)
  = mkResponse 204 BEmpty
  /\ find_video "v1" (snd (delete_api_admin_videos_id (Some root) "v1" library))
     = None.
Proof.
  destruct (delete_removes_only_that_video root "v1" library (v := clip)
              eq_refl eq_refl eq_refl) as (A & B & _).
  split; [exact A | exact B].
Defined.

(** X2: Deleting an id that is not stored answers 404 and changes nothing; in
    particular the second of two deletions of the same id always does. *)
Theorem delete_twice_is_not_found
    (u : User.t) (id : string) (s : Store) :
  User.role u = ADMIN ->
  (find_video id s = None ->
   delete_api_admin_videos_id (Some u) id s
   = (message 404 "Video not found", s))
  /\ (let s1 := snd (delete_api_admin_videos_id (Some u) id s) in
      delete_api_admin_videos_id (Some u) id s1
      = (message 404 "Video not found", s1)).
Proof.
  intros R.
  assert (A : forall t, find_video id t = None ->
              delete_api_admin_videos_id (Some u) id t
              = (message 404 "Video not found", t)).
  { intros t F. rewrite delete_answer by assumption.
    destruct (filter_out_absent _ _ F) as [K G]. rewrite K, G.
    now destruct t. }
  split; [apply A|].
  intros s1. apply A. subst s1.
  rewrite delete_answer by assumption.
  unfold find_video; simpl. rewrite find_after_delete.
  now rewrite String.eqb_refl.
Qed.

Lemma delete_twice_is_not_found_witness :
  let s1 := snd (delete_api_admin_videos_id (Some root) "v1" library) in
  delete_api_admin_videos_id (Some root) "v1" s1
  = (message 404 "Video not found", s1).
Proof.
  exact (proj2 (delete_twice_is_not_found root "v1" library eq_refl)).
Defined.

(** ** Accounts *)

Lemma find_snoc {A} (p : A -> bool) (l : list A) (x : A) :
  find p (l ++ [x])
  = match find p l with
    | Some y => Some y
    | None => if p x then Some x else None
    end.
Proof.
  induction l as [|a l IH]; simpl; [reflexivity|].
  now destruct (p a).
Qed.

Lemma find_none_existsb {A} (p : A -> bool) (l : list A) :
  find p l = None -> existsb p l = false.
Proof.
  induction l as [|a l IH]; simpl; [reflexivity|].
  destruct (p a); [discriminate | exact IH].
Qed.

Lemma find_user_after_avatar (userId avatarUrl id : string)
    (l : list User.t) :
  find (has_user_id id)
       (map (fun u => if has_user_id userId u
                      then set_avatarUrl avatarUrl u else u) l)
  = option_map (fun u => if has_user_id userId u
                         then set_avatarUrl avatarUrl u else u)
               (find (has_user_id id) l).
Proof.
  induction l as [|u l IH]; simpl; [reflexivity|].
  destruct (has_user_id userId u) eqn:Hu.
  - change (has_user_id id (set_avatarUrl avatarUrl u))
      with (has_user_id id u).
    destruct (has_user_id id u); simpl; [now rewrite Hu | exact IH].
  - destruct (has_user_id id u); simpl; [now rewrite Hu | exact IH].
Qed.

(** X3: No storage method deletes a user or changes a stored user's email,
    password hash, role or creation time, and a user it adds has role
    USER. *)
Theorem writes_keep_accounts (s s' : Store) :
  writes s s' ->
  (forall id u,
      find_user id s = Some u ->
      exists u',
        find_user id s' = Some u'
        /\ User.id u' = User.id u
        /\ User.email u' = User.email u
        /\ User.password u' = User.password u
        /\ User.role u' = User.role u
        /\ User.createdAt u' = User.createdAt u)
  /\ (forall id u',
      find_user id s' = Some u' -> find_user id s = None ->
      User.role u' = USER).
Proof.
  assert (Same : forall t t' : Store, users t' = users t ->
            (forall id u,
                find_user id t = Some u ->
                exists u',
                  find_user id t' = Some u'
                  /\ User.id u' = User.id u
                  /\ User.email u' = User.email u
                  /\ User.password u' = User.password u
                  /\ User.role u' = User.role u
                  /\ User.createdAt u' = User.createdAt u)
            /\ (forall id u',
                find_user id t' = Some u' -> find_user id t = None ->
                User.role u' = USER)).
  { intros t t' E. unfold find_user. rewrite E. split.
    - intros id u F. exists u. now repeat split.
    - intros id u' F N. congruence. }
  intros W. destruct W as
    [uuid now iu s user s' H | userId avatarUrl s s' H
    | uuid now d s v s' H | now id d s r s' H
    | id s b s' H | id s s' H].
  - unfold createUser in H. destruct (_ || _) in H; [discriminate|].
    injection H as <- <-. unfold find_user; simpl. split.
    + intros id u F. exists u. rewrite find_snoc, F. now repeat split.
    + intros id u' F N. rewrite find_snoc, N in F.
      destruct (has_user_id id _) in F; [|discriminate].
      now injection F as <-.
  - injection H as <-. unfold find_user; simpl. split.
    + intros id u F. rewrite find_user_after_avatar, F. simpl.
      eexists. split; [reflexivity|].
      now destruct (has_user_id userId u).
    + intros id u' F N. rewrite find_user_after_avatar, N in F. discriminate.
  - apply Same. unfold createVideo in H.
    destruct (existsb _ _) in H; [discriminate|]. now injection H as _ <-.
  - apply Same. now injection H as _ <-.
  - apply Same. now injection H as _ <-.
  - apply Same. unfold incrementVideoViews in H.
    destruct (existsb _ _) in H; [discriminate|]. now injection H as <-.
Qed.

Lemma writes_keep_accounts_witness :
  exists u',
    find_user "u0"
      (mkStore (map (fun u => if has_user_id "u0" u
                              then set_avatarUrl "/uploads/a" u else u)
                    (users library))
               (videos library))
    = Some u'
    /\ User.password u' = "$2a$12$root"
    /\ User.role u' = ADMIN.
Proof.
  destruct (writes_keep_accounts
              (@writes_updateUserAvatar "u0" "/uploads/a" library _ eq_refl))
    as (K & _).
  destruct (K "u0" root eq_refl) as (u' & F & _ & _ & P & R & _).
  exists u'. split; [exact F|]. split; [exact P | exact R].
Defined.

Lemma map_avatar_keeps {B} (f : User.t -> B) (userId avatarUrl : string)
    (l : list User.t) :
  (forall u, f (set_avatarUrl avatarUrl u) = f u) ->
  map f (map (fun u => if has_user_id userId u
                       then set_avatarUrl avatarUrl u else u) l)
  = map f l.
Proof.
  intros K. induction l as [|u l IH]; simpl; [reflexivity|].
  rewrite IH. now destruct (has_user_id userId u); [rewrite K|].
Qed.

Lemma fresh_in_users {B} (f : User.t -> B) (p : User.t -> bool) (x : B)
    (l : list User.t) :
  (forall u, f u = x -> p u = true) ->
  existsb p l = false -> ~ In x (map f l).
Proof.
  intros K E I. apply in_map_iff in I as (u & Hu & I).
  assert (existsb p l = true) as H
    by (apply existsb_exists; exists u; auto).
  congruence.
Qed.

(** X4: Every storage method keeps the ids and the emails of the users
    pairwise different. *)
Theorem writes_keep_users_unique (s s' : Store) :
  writes s s' -> users_unique s -> users_unique s'.
Proof.
  unfold users_unique.
  intros W [Ui Ue]. destruct W as
    [uuid now iu s user s' H | userId avatarUrl s s' H
    | uuid now d s v s' H | now id d s r s' H
    | id s b s' H | id s s' H].
  - unfold createUser in H.
    destruct (existsb (has_user_id uuid) (users s)) eqn:Fi;
      [discriminate|].
    destruct (existsb (has_email (InsertUser.email iu)) (users s)) eqn:Fe;
      [discriminate|].
    injection H as <- <-. simpl. rewrite !map_app. simpl. split.
    + apply (Permutation_NoDup (Permutation_cons_append _ _)).
      constructor; [|exact Ui].
      apply (fresh_in_users User.id (has_user_id uuid)); [|exact Fi].
      intros u E. now apply String.eqb_eq.
    + apply (Permutation_NoDup (Permutation_cons_append _ _)).
      constructor; [|exact Ue].
      apply (fresh_in_users User.email (has_email (InsertUser.email iu)));
        [|exact Fe].
      intros u E. now apply String.eqb_eq.
  - injection H as <-. simpl.
    now rewrite !map_avatar_keeps by reflexivity.
  - unfold createVideo in H.
    destruct (existsb _ _) in H; [discriminate|]. now injection H as _ <-.
  - now injection H as _ <-.
  - now injection H as _ <-.
  - unfold incrementVideoViews in H.
    destruct (existsb _ _) in H; [discriminate|]. now injection H as <-.
Qed.

Lemma writes_keep_users_unique_witness :
  users_unique
    (mkStore (users library
              ++ [User.mk "u2" "bob@example.org" "h" None USER (Some 7%Z)])
             (videos library)).
Proof.
  apply (@writes_keep_users_unique library).
  - apply (@writes_createUser "u2" 7 (InsertUser.mk "bob@example.org" "h")
             library _ _ eq_refl).
  - split; repeat constructor; simpl; intuition discriminate.
Defined.

(** ** Registration, login and the session *)

Lemma find_unique_user (s : Store) (u : User.t) :
  NoDup (map User.id (users s)) ->
  In u (users s) ->
  find_user (User.id u) s = Some u.
Proof.
  intros N I. unfold find_user.
  destruct (find (has_user_id (User.id u)) (users s)) as [w|] eqn:F.
  - apply find_some in F as [Iw H]. apply String.eqb_eq in H.
    f_equal. now apply (@NoDup_map_inj _ _ User.id (users s) w u).
  - apply find_none with (x := u) in F; [|exact I].
    unfold has_user_id in F. now rewrite String.eqb_refl in F.
Qed.

(** X5: The session round trip: the id that [serializeUser] keeps for a
    stored user is resolved by passport to that very user as [req.user],
    provided ids are unique.  An id that no stored user has does not make
    the request anonymous: the callback finds no user and passport fails
    the request with its deserialization error.  Only a session without
    an id is anonymous. *)
Theorem session_round_trip (s : Store) :
  (forall u,
      NoDup (map User.id (users s)) -> In u (users s) ->
      deserializeUser (Some (serializeUser u)) s = Ok (Some u) s
      /\ passport_session (Some (serializeUser u)) s = SessionUser u)
  /\ (forall id,
      ~ In id (map User.id (users s)) ->
      passport_session (Some id) s = SessionFailed None)
  /\ (forall session,
      passport_session session s = SessionNone <-> session = None).
Proof.
  assert (D : forall id,
             deserializeUser (Some id) s = Ok (find_user id s) s)
    by reflexivity.
  split; [|split].
  - intros u N I. unfold passport_session, serializeUser.
    rewrite D, find_unique_user by assumption. now split.
  - intros id N. unfold passport_session. rewrite D.
    destruct (find_user id s) as [w|] eqn:F; [|reflexivity].
    apply find_some in F as [I H]. apply String.eqb_eq in H.
    elim N. rewrite <- H. now apply in_map.
  - intros [id|]; [|now split].
    unfold passport_session. rewrite D.
    split; [|discriminate]. now destruct (find_user id s).
Qed.

Lemma session_round_trip_witness :
  passport_session (Some (serializeUser alice)) library = SessionUser alice
  /\ passport_session (Some "u7") library = SessionFailed None.
Proof.
  destruct (session_round_trip library) as (A & B & _).
  split.
  - apply A; [|simpl; auto].
    repeat constructor; simpl; intuition discriminate.
  - apply B. simpl. intuition discriminate.
Defined.

Section account_flows.

Variable bcrypt_hash : string -> string -> string.
Variable bcrypt_compare : string -> string -> bool.

(** X6: A registration with a new email, non-empty credentials and a fresh id
    answers 201 with the projection of the new user, appends exactly that
    user (role USER, the hash of the password, no avatar) to the table,
    and binds the session to the new id, which then resolves to the new
    user. *)
Theorem register_creates_user
    (uuid salt : string) (now : Z) (e p : string) (session : Session)
    (s : Store) :
  truthy (Some e) = true -> truthy (Some p) = true ->
  find_user_by_email e s = None ->
  find_user uuid s = None ->
  let user := User.mk uuid e (bcrypt_hash p salt) None USER (Some now) in
  let s' := mkStore (users s ++ [user]) (videos s) in
  post_api_register bcrypt_hash uuid salt now (Some e) (Some p) session s
  = ((mkResponse 201 (BJson (user_json user)), Some uuid), s')
  /\ find_user_by_email e s' = Some user
  /\ deserializeUser (Some uuid) s' = Ok (Some user) s'
  /\ (forall id, find_user id s <> None -> find_user id s' = find_user id s).
Proof.
  intros Te Tp Fe Fi user s'.
  split; [|split; [|split]].
  - rewrite register_answer, Te, Tp, Fe. simpl negb. simpl orb. cbv iota.
    unfold createUser. simpl InsertUser.email.
    unfold find_user_by_email in Fe. unfold find_user in Fi.
    now rewrite (find_none_existsb _ _ Fi), (find_none_existsb _ _ Fe).
  - unfold find_user_by_email in *. subst s'. simpl.
    rewrite find_snoc, Fe. unfold has_email. simpl.
    now rewrite String.eqb_refl.
  - unfold deserializeUser, getUser, gets. subst s'. simpl.
    unfold find_user in Fi. rewrite find_snoc, Fi.
    unfold has_user_id. simpl. now rewrite String.eqb_refl.
  - intros id N. unfold find_user in *. subst s'. simpl.
    rewrite find_snoc. now destruct (find (has_user_id id) (users s)).
Qed.

(** X7: The login route never writes; it answers 200 exactly when both
    credentials are non-empty, a user has the email and the password
    verifies against that user's hash, and it then sends that user's
    projection and binds the session to that user's id. *)
Theorem login_succeeds_iff_verified
    (email password : option string) (session : Session) (s : Store) :
  let r := post_api_login bcrypt_compare email password session s in
  snd r = s
  /\ (status (fst (fst r)) = 200 <->
      exists e p u,
        email = Some e /\ password = Some p
        /\ truthy email = true /\ truthy password = true
        /\ find_user_by_email e s = Some u
        /\ bcrypt_compare p (User.password u) = true)
  /\ (forall e p u,
      email = Some e -> password = Some p ->
      truthy email = true -> truthy password = true ->
      find_user_by_email e s = Some u ->
      bcrypt_compare p (User.password u) = true ->
      fst r = (mkResponse 200 (BJson (user_json u)), Some (User.id u))).
Proof.
  intros r. subst r.
  destruct email as [e|], password as [p|];
    try (split; [reflexivity|]; split;
         [split; [discriminate | intros (? & ? & ? & ? & ? & _); discriminate]
         | intros; discriminate]).
  destruct (truthy (Some e)) eqn:Te.
  2:{ unfold post_api_login, try_catch, bind, passport_authenticate_local.
      rewrite Te. simpl. split; [reflexivity|]. split.
      - split; [discriminate|].
        intros (? & ? & ? & _ & _ & ? & _). discriminate.
      - intros; discriminate. }
  destruct (truthy (Some p)) eqn:Tp.
  2:{ unfold post_api_login, try_catch, bind, passport_authenticate_local.
      rewrite Te, Tp. simpl. split; [reflexivity|]. split.
      - split; [discriminate|].
        intros (? & ? & ? & _ & _ & _ & ? & _). discriminate.
      - intros; discriminate. }
  rewrite login_answer by assumption.
  destruct (find_user_by_email e s) as [u|] eqn:F.
  - destruct (bcrypt_compare p (User.password u)) eqn:C; simpl.
    + split; [reflexivity|]. split.
      * split; [|reflexivity]. intros _. exists e, p, u. now repeat split.
      * intros e' p' u' [= <-] [= <-] _ _ F' _.
        rewrite F in F'. now injection F' as <-.
    + split; [reflexivity|]. split.
      * split; [discriminate|].
        intros (e' & p' & u' & [= <-] & [= <-] & _ & _ & F' & C').
        rewrite F in F'. injection F' as <-. congruence.
      * intros e' p' u' [= <-] [= <-] _ _ F' C'.
        rewrite F in F'. injection F' as <-. congruence.
  - simpl. split; [reflexivity|]. split.
    + split; [discriminate|].
      intros (e' & p' & u' & [= <-] & _ & _ & _ & F' & _). congruence.
    + intros e' p' u' [= <-] _ _ _ F'. congruence.
Qed.

(** X8: Register, then log in: when bcrypt verifies a password against its own
    hash, the credentials of a successful registration log the new user
    in, and a password that does not verify against the stored hash is
    turned away with 401. *)
Theorem register_then_login
    (uuid salt : string) (now : Z) (e p : string) (session : Session)
    (s s' : Store) (created : Response) (session' : Session) :
  bcrypt_compare p (bcrypt_hash p salt) = true ->
  post_api_register bcrypt_hash uuid salt now (Some e) (Some p) session s
  = ((created, session'), s') ->
  status created = 201 ->
  let user := User.mk uuid e (bcrypt_hash p salt) None USER (Some now) in
  post_api_login bcrypt_compare (Some e) (Some p) None s'
  = ((mkResponse 200 (BJson (user_json user)), Some uuid), s')
  /\ body created = BJson (user_json user)
  /\ (forall wrong,
      truthy (Some wrong) = true ->
      bcrypt_compare wrong (bcrypt_hash p salt) = false ->
      post_api_login bcrypt_compare (Some e) (Some wrong) None s'
      = ((mkResponse 401 (BText "Unauthorized"), None), s')).
Proof.
  intros V E St user.
  rewrite register_answer in E.
  destruct (truthy (Some e)) eqn:Te; [|injection E as <- <- <-; discriminate].
  destruct (truthy (Some p)) eqn:Tp; [|injection E as <- <- <-; discriminate].
  simpl in E.
  destruct (find_user_by_email e s) eqn:Fe;
    [injection E as <- <- <-; discriminate|].
  unfold createUser in E. simpl in E.
  destruct (existsb (has_user_id uuid) (users s)
            || existsb (has_email e) (users s));
    injection E as <- <- <-; [discriminate|].
  assert (F : find_user_by_email e
                (mkStore (users s ++ [user]) (videos s)) = Some user).
  { unfold find_user_by_email in *. simpl. rewrite find_snoc, Fe.
    unfold has_email. simpl. now rewrite String.eqb_refl. }
  split; [|split].
  - rewrite login_answer by assumption. fold user. rewrite F. simpl.
    now rewrite V.
  - reflexivity.
  - intros wrong Tw W. rewrite login_answer by assumption.
    fold user. rewrite F. simpl. now rewrite W.
Qed.

End account_flows.

Lemma register_creates_user_witness :
  let bob :=
    User.mk "u9" "bob@example.org" (sample_hash "hunter2" "$2a$12$") None
            USER (Some 5000%Z) in
  post_api_register sample_hash "u9" "$2a$12$" 5000
    (Some "bob@example.org") (Some "hunter2") None library
  = ((mkResponse 201 (BJson (user_json bob)), Some "u9"),
     mkStore [root; alice; bob] [clip])
  /\ find_user "u1"
       (mkStore (users library ++ [bob]) (videos library))
     = Some alice.
Proof.
  intros bob.
  destruct (register_creates_user sample_hash "u9" "$2a$12$" 5000
              "bob@example.org" "hunter2" None library
              eq_refl eq_refl eq_refl eq_refl) as (A & _ & _ & B).
  split; [exact A|]. apply (B "u1"). discriminate.
Defined.

Lemma login_succeeds_iff_verified_witness :
  fst (post_api_login sample_compare
         (Some "alice@example.org") (Some "alice") None library)
  = (mkResponse 200 (BJson (user_json alice)), Some "u1").
Proof.
  destruct (login_succeeds_iff_verified sample_compare
              (Some "alice@example.org") (Some "alice") None library)
    as (_ & _ & H).
  apply (H "alice@example.org" "alice" alice); reflexivity.
Defined.

Lemma register_then_login_witness :
  let bob :=
    User.mk "u9" "bob@example.org" (sample_hash "hunter2" "$2a$12$") None
            USER (Some 5000%Z) in
  post_api_login sample_compare (Some "bob@example.org") (Some "hunter2") None
    (mkStore [root; alice; bob] [clip])
  = ((mkResponse 200 (BJson (user_json bob)), Some "u9"),
     mkStore [root; alice; bob] [clip])
  /\ post_api_login sample_compare (Some "bob@example.org") (Some "hunter3")
       None (mkStore [root; alice; bob] [clip])
     = ((mkResponse 401 (BText "Unauthorized"), None),
        mkStore [root; alice; bob] [clip]).
Proof.
  intros bob.
  destruct (register_then_login sample_hash sample_compare
              "u9" "$2a$12$" 5000 "bob@example.org" "hunter2" None library
              eq_refl eq_refl eq_refl) as (A & _ & B).
  split; [exact A|]. apply B; reflexivity.
Defined.

(** ** The gate in front of the routes *)

(** X9: A caller who is not an ADMIN, anonymous or not, gets 403 "Admin access
    required" from each of the five admin routes, and none of them reads
    the body or touches the store. *)
Theorem admin_routes_closed_to_others
    (principal : option User.t) (uuid id : string) (now : Z) (body : json)
    (s : Store) :
  (forall u, principal = Some u -> User.role u = USER) ->
  get_api_admin_videos principal s = (message 403 "Admin access required", s)
  /\ post_api_admin_videos uuid now principal body s
     = (message 403 "Admin access required", s)
  /\ put_api_admin_videos_id now principal id body s
     = (message 403 "Admin access required", s)
  /\ delete_api_admin_videos_id principal id s
     = (message 403 "Admin access required", s)
  /\ get_api_admin_stats principal s
     = (message 403 "Admin access required", s).
Proof.
  intros H.
  assert (R : requireAdmin principal
              = Some (message 403 "Admin access required")).
  { destruct principal as [u|]; [|reflexivity].
    unfold requireAdmin. simpl. now rewrite (H u eq_refl). }
  unfold get_api_admin_videos, post_api_admin_videos, put_api_admin_videos_id,
    delete_api_admin_videos_id, get_api_admin_stats.
  now rewrite !(route_rejected _ _ _ _ R).
Qed.

Lemma admin_routes_closed_to_others_witness :
  delete_api_admin_videos_id (Some alice) "v1" library
  = (message 403 "Admin access required", library)
  /\ post_api_admin_videos "v2" 1 None (JObj []) library
     = (message 403 "Admin access required", library).
Proof.
  split.
  - apply (@admin_routes_closed_to_others (Some alice) "v2" "v1" 1 (JObj [])
             library).
    now intros u [= <-].
  - apply (@admin_routes_closed_to_others None "v2" "v1" 1 (JObj []) library).
    discriminate.
Defined.

(** X10: An anonymous caller gets 401 "Authentication required" from the list,
    detail, download and avatar routes; no view is counted and no avatar
    is changed. *)
Theorem user_routes_closed_to_anonymous
    (id : string) (part : option File.t) (s : Store) :
  get_api_videos None s = (message 401 "Authentication required", s)
  /\ get_api_videos_id None id s = (message 401 "Authentication required", s)
  /\ get_api_videos_id_download None id s
     = (message 401 "Authentication required", s)
  /\ post_api_me_avatar None part s
     = (Answered (message 401 "Authentication required"), s)
  /\ (forall n, detail_reads n None id s = s).
Proof.
  repeat split.
  induction n as [|n IH]; simpl; [reflexivity | exact IH].
Qed.

(** ** The order of the catalog *)

Lemma created_before_total (a b : Video.t) :
  created_before a b = false -> created_before b a = true.
Proof.
  unfold created_before.
  destruct (Video.createdAt a) as [x|], (Video.createdAt b) as [y|];
    try discriminate; try reflexivity.
  intros H. apply Z.leb_gt in H. apply Z.leb_le. lia.
Qed.

Lemma created_before_trans (a b c : Video.t) :
  created_before a b = true -> created_before b c = true ->
  created_before a c = true.
Proof.
  unfold created_before.
  destruct (Video.createdAt a) as [x|], (Video.createdAt b) as [y|],
    (Video.createdAt c) as [z|]; try discriminate; try reflexivity.
  intros H1 H2. apply Z.leb_le in H1, H2. apply Z.leb_le. lia.
Qed.

Lemma insert_desc_sorted (v : Video.t) (l : list Video.t) :
  Sorted newer_first l -> Sorted newer_first (insert_desc v l).
Proof.
  induction l as [|w l IH]; simpl; intros S.
  - repeat constructor.
  - destruct (created_before v w) eqn:C.
    + constructor; [exact S | now constructor].
    + apply Sorted_inv in S as [S H].
      constructor; [now apply IH|].
      destruct l as [|x l]; simpl.
      * constructor. now apply created_before_total.
      * destruct (created_before v x).
        -- constructor. now apply created_before_total.
        -- constructor. now inversion H.
Qed.

(** X12: [getVideos] returns every row of the table exactly once, and each
    returned row was created no earlier than every row after it (rows
    without a creation time first). *)
Theorem getVideos_newest_first (s : Store) :
  exists rows,
    getVideos s = Ok rows s
    /\ Permutation (videos s) rows
    /\ StronglySorted newer_first rows
    /\ List.length rows = List.length (videos s).
Proof.
  exists (order_desc (videos s)).
  split; [reflexivity|]. split; [apply order_desc_perm|].
  split; [|apply order_desc_length].
  apply Sorted_StronglySorted.
  - intros a b c. apply created_before_trans.
  - induction (videos s) as [|v l IH]; simpl; [constructor|].
    now apply insert_desc_sorted.
Qed.

(** ** The three views of a video *)

Lemma order_desc_newest_first (l : list Video.t) :
  StronglySorted newer_first (order_desc l).
Proof.
  apply Sorted_StronglySorted.
  - intros a b c. apply created_before_trans.
  - induction l as [|v l IH]; simpl; [constructor|].
    now apply insert_desc_sorted.
Qed.

(** X11: An admin's list and a user's list each carry every stored video
    exactly once, newest first.  For each video the user's object is the
    admin's object cut down to the ten public keys, values included; the
    admin's object has the twelve columns, among them [sourceUrl] and
    [updatedAt] with the stored values; the detail object is the admin's
    object without [updatedAt] and with [views] replaced by the counter
    plus one. *)
Theorem list_view_is_cut_of_admin_view
    (admin u : User.t) (s : Store) :
  User.role admin = ADMIN ->
  (exists rows,
      Permutation rows (videos s)
      /\ StronglySorted newer_first rows
      /\ get_api_admin_videos (Some admin) s
         = (mkResponse 200 (BJson (JArr (map video_json rows))), s))
  /\ (exists rows,
      Permutation rows (videos s)
      /\ StronglySorted newer_first rows
      /\ get_api_videos (Some u) s
         = (mkResponse 200 (BJson (JArr (map publicVideo rows))), s))
  /\ (forall v,
      exists admin_fields public_fields detail_fields,
        video_json v = JObj admin_fields
        /\ publicVideo v = JObj public_fields
        /\ detailedVideo v = JObj detail_fields
        /\ keys admin_fields
           = ["id"; "title"; "description"; "sourceUrl"; "thumbnailUrl";
              "duration"; "views"; "canPlay"; "canShare"; "canDownload";
              "createdAt"; "updatedAt"]
        /\ jget "sourceUrl" admin_fields = Some (JStr (Video.sourceUrl v))
        /\ jget "updatedAt" admin_fields
           = Some match Video.updatedAt v with
                  | Some t => JDate t
                  | None => JNull
                  end
        /\ public_fields
           = filter (fun kv => existsb (String.eqb (fst kv)) public_keys)
                    admin_fields
        /\ keys public_fields = public_keys
        /\ detail_fields
           = map (fun kv =>
                    if String.eqb (fst kv) "views"
                    then ("views", JNum (views_or_0 v + 1))
                    else kv)
                 (filter (fun kv => negb (String.eqb (fst kv) "updatedAt"))
                         admin_fields)).
Proof.
  intros R. split; [|split].
  - exists (order_desc (videos s)).
    split; [apply Permutation_sym, order_desc_perm|].
    split; [apply order_desc_newest_first|].
    unfold get_api_admin_videos.
    now rewrite route_allowed by now apply requireAdmin_admin.
  - exists (order_desc (videos s)).
    split; [apply Permutation_sym, order_desc_perm|].
    split; [apply order_desc_newest_first | reflexivity].
  - intros v. do 3 eexists.
    split; [reflexivity|]. split; [reflexivity|]. split; [reflexivity|].
    repeat split.
Qed.

Lemma list_view_is_cut_of_admin_view_witness :
  exists rows,
    Permutation rows (videos library)
    /\ get_api_admin_videos (Some root) library
       = (mkResponse 200 (BJson (JArr (map video_json rows))), library).
Proof.
  destruct (list_view_is_cut_of_admin_view root alice library eq_refl)
    as ((rows & P & _ & A) & _).
  exists rows. split; [exact P | exact A].
Defined.

(** ** Creating a video: defaults and look-up *)

Lemma insert_parse_all_fields (body : json) (d : InsertVideo.t) :
  insertVideoSchema_parse body = inl d ->
  z_string_nullish (body_field "description" body)
  = Some (InsertVideo.description d)
  /\ z_string_nullish (body_field "thumbnailUrl" body)
     = Some (InsertVideo.thumbnailUrl d)
  /\ z_string_nullish (body_field "duration" body)
     = Some (InsertVideo.duration d)
  /\ z_boolean_nullish (body_field "canPlay" body)
     = Some (InsertVideo.canPlay d)
  /\ z_boolean_nullish (body_field "canShare" body)
     = Some (InsertVideo.canShare d)
  /\ z_boolean_nullish (body_field "canDownload" body)
     = Some (InsertVideo.canDownload d).
Proof.
  destruct body as [| | | | | |o]; try discriminate.
  unfold insertVideoSchema_parse, body_field.
  destruct (z_string (jget "title" o)); [|discriminate].
  destruct (z_string_nullish (jget "description" o)); [|discriminate].
  destruct (z_string (jget "sourceUrl" o)); [|discriminate].
  destruct (z_string_nullish (jget "thumbnailUrl" o)); [|discriminate].
  destruct (z_string_nullish (jget "duration" o)); [|discriminate].
  destruct (z_boolean_nullish (jget "canPlay" o)); [|discriminate].
  destruct (z_boolean_nullish (jget "canShare" o)); [|discriminate].
  destruct (z_boolean_nullish (jget "canDownload" o)); [|discriminate].
  simpl. intros [= <-]. repeat split.
Qed.

(** X13: A created video gets the drawn id, a zero view counter and the
    current time as both timestamps whatever the body says about them, and
    the title and source of the body.  Each of the three capability flags
    is stored as its column default when its key is missing (play and share
    allowed, download not), as NULL when the body gives [null], and as the
    boolean the body gives otherwise; each of the three optional texts is
    stored as NULL when its key is missing or [null] and as the string the
    body gives otherwise. *)
Theorem create_fills_defaults
    (uuid : string) (now : Z) (u : User.t) (body : json)
    (s s' : Store) (answer : Response) :
  User.role u = ADMIN ->
  post_api_admin_videos uuid now (Some u) body s = (answer, s') ->
  status answer = 201 ->
  exists v,
    videos s' = (videos s ++ [v])%list
    /\ answer = mkResponse 201 (BJson (video_json v))
    /\ Video.id v = uuid
    /\ Video.views v = Some 0%Z
    /\ Video.createdAt v = Some now
    /\ Video.updatedAt v = Some now
    /\ body_field "title" body = Some (JStr (Video.title v))
    /\ body_field "sourceUrl" body = Some (JStr (Video.sourceUrl v))
    /\ (forall key column default,
        In (key, column, default)
           [("canPlay", Video.canPlay v, true);
            ("canShare", Video.canShare v, true);
            ("canDownload", Video.canDownload v, false)] ->
        (body_field key body = None -> column = Some default)
        /\ (body_field key body = Some JNull -> column = None)
        /\ (forall b, body_field key body = Some (JBool b) ->
            column = Some b))
    /\ (forall key column,
        In (key, column)
           [("description", Video.description v);
            ("thumbnailUrl", Video.thumbnailUrl v);
            ("duration", Video.duration v)] ->
        (body_field key body = None -> column = None)
        /\ (body_field key body = Some JNull -> column = None)
        /\ (forall text, body_field key body = Some (JStr text) ->
            column = Some text)).
Proof.
  intros R E St. rewrite create_answer in E by assumption.
  destruct (insertVideoSchema_parse body) as [d|e] eqn:P.
  2:{ injection E as <- <-. rewrite invalid_video_data_status in St.
      discriminate. }
  unfold createVideo in E.
  destruct (existsb (has_video_id uuid) (videos s));
    injection E as <- <-; [discriminate|].
  pose proof (insert_parse_fields _ P) as (Pt & Ps).
  apply insert_parse_all_fields in P as (Pd & Pth & Pdu & Pcp & Pcs & Pcd).
  eexists. split; [reflexivity|]. do 5 (split; [reflexivity|]).
  split; [exact Pt|]. split; [exact Ps|]. simpl. split.
  - intros key column default I.
    repeat (destruct I as [[= <- <- <-]|I];
            [repeat split; intros;
             match goal with
             | B : body_field ?k body = _,
               Q : _ (body_field ?k body) = _ |- _ =>
                 rewrite B in Q; simpl in Q; injection Q as <-; reflexivity
             end|]).
    contradiction.
  - intros key column I.
    repeat (destruct I as [[= <- <-]|I];
            [repeat split; intros;
             match goal with
             | B : body_field ?k body = _,
               Q : _ (body_field ?k body) = _ |- _ =>
                 rewrite B in Q; simpl in Q; injection Q as <-; reflexivity
             end|]).
    contradiction.
Qed.

Lemma create_fills_defaults_witness :
  exists v,
    videos (snd (post_api_admin_videos "v2" 3000 (Some root)
                   (JObj [("title", JStr "T"); ("sourceUrl", JStr "http://x");
                          ("views", JNum 77); ("id", JStr "v1");
                          ("canPlay", JNull); ("duration", JStr "1:30")])
                   library))
    = [clip; v]
    /\ Video.id v = "v2"
    /\ Video.views v = Some 0%Z
    /\ Video.canDownload v = Some false
    /\ Video.canPlay v = None
    /\ Video.duration v = Some "1:30".
Proof.
  destruct (create_fills_defaults "v2" 3000 root
              (JObj [("title", JStr "T"); ("sourceUrl", JStr "http://x");
                     ("views", JNum 77); ("id", JStr "v1");
                     ("canPlay", JNull); ("duration", JStr "1:30")])
              library eq_refl eq_refl eq_refl)
    as (v & A & _ & I & V & _ & _ & _ & _ & Flags & Texts).
  exists v. split; [exact A|]. split; [exact I|]. split; [exact V|].
  split; [|split].
  - destruct (Flags "canDownload" (Video.canDownload v) false)
      as (H & _ & _); [simpl; auto|].
    apply H. reflexivity.
  - destruct (Flags "canPlay" (Video.canPlay v) true)
      as (_ & H & _); [simpl; auto|].
    apply H. reflexivity.
  - destruct (Texts "duration" (Video.duration v))
      as (_ & _ & H); [simpl; auto|].
    apply H. reflexivity.
Defined.

(** X14: After a video is created it is found under its id, the videos stored
    before are found as before, and the catalog is one row longer; a draw
    of an id that is already taken is refused by the primary key: 500,
    nothing stored. *)
Theorem create_then_find
    (uuid : string) (now : Z) (u : User.t) (body : json)
    (s s' : Store) (answer : Response) :
  User.role u = ADMIN ->
  post_api_admin_videos uuid now (Some u) body s = (answer, s') ->
  (status answer = 201 ->
   find_video uuid s = None
   /\ (exists v,
       find_video uuid s' = Some v
       /\ answer = mkResponse 201 (BJson (video_json v)))
   /\ (forall i, i <> uuid -> find_video i s' = find_video i s)
   /\ List.length (videos s') = S (List.length (videos s))
   /\ users s' = users s)
  /\ (find_video uuid s <> None ->
      (answer = next_error UniqueViolation
       \/ exists e, answer = invalid_video_data e)
      /\ s' = s).
Proof.
  intros R E. rewrite create_answer in E by assumption.
  destruct (insertVideoSchema_parse body) as [d|e] eqn:P.
  2:{ injection E as <- <-. split.
      - rewrite invalid_video_data_status. discriminate.
      - intros _. split; [right; now exists e | reflexivity]. }
  unfold createVideo in E. unfold find_video.
  destruct (existsb (has_video_id uuid) (videos s)) eqn:Fresh;
    injection E as <- <-.
  - split; [discriminate|]. intros _. split; [now left | reflexivity].
  - assert (F : find (has_video_id uuid) (videos s) = None).
    { destruct (find (has_video_id uuid) (videos s)) as [w|] eqn:F;
        [|reflexivity].
      apply find_some in F as [I H].
      assert (existsb (has_video_id uuid) (videos s) = true)
        by (apply existsb_exists; now exists w).
      congruence. }
    split; [|intros N; now elim N].
    intros _. simpl. split; [exact F|]. split.
    { eexists. split; [|reflexivity]. rewrite find_snoc, F.
      unfold has_video_id. simpl. now rewrite String.eqb_refl. }
    split.
    { intros i N. rewrite find_snoc. unfold has_video_id at 2. simpl.
      destruct (String.eqb_spec uuid i) as [->|_]; [now elim N|].
      now destruct (find (has_video_id i) (videos s)). }
    split; [|reflexivity].
    rewrite length_app. simpl. lia.
Qed.

Lemma create_then_find_witness :
  exists v,
    find_video "v2"
      (snd (post_api_admin_videos "v2" 3000 (Some root)
              (JObj [("title", JStr "T"); ("sourceUrl", JStr "http://x")])
              library))
    = Some v.
Proof.
  destruct (create_then_find "v2" 3000 root
              (JObj [("title", JStr "T"); ("sourceUrl", JStr "http://x")])
              library eq_refl eq_refl) as (H & _).
  destruct (H eq_refl) as (_ & (v & F & _) & _).
  exists v. exact F.
Defined.

(** ** Updating a video: what the body sets *)

(** X15: An accepted update stores what the body supplies: a supplied title or
    source replaces the old one, a supplied flag or optional text is
    stored as given, and an explicit [null] clears a nullable column.  A
    [null] title or source is not accepted: 400, nothing changed. *)
Theorem update_stores_supplied_fields
    (now : Z) (u : User.t) (id : string) (body : json)
    (s s' : Store) (answer : Response) (old : Video.t) :
  User.role u = ADMIN ->
  find_video id s = Some old ->
  put_api_admin_videos_id now (Some u) id body s = (answer, s') ->
  (status answer = 200 ->
   exists new,
     find_video id s' = Some new
     /\ (forall t, body_field "title" body = Some (JStr t) ->
         Video.title new = t)
     /\ (forall src, body_field "sourceUrl" body = Some (JStr src) ->
         Video.sourceUrl new = src)
     /\ (forall d, body_field "description" body = Some (JStr d) ->
         Video.description new = Some d)
     /\ (body_field "description" body = Some JNull ->
         Video.description new = None)
     /\ (forall b, body_field "canPlay" body = Some (JBool b) ->
         Video.canPlay new = Some b)
     /\ (forall b, body_field "canShare" body = Some (JBool b) ->
         Video.canShare new = Some b)
     /\ (forall b, body_field "canDownload" body = Some (JBool b) ->
         Video.canDownload new = Some b))
  /\ (body_field "title" body = Some JNull
      \/ body_field "sourceUrl" body = Some JNull ->
      status answer = 400 /\ s' = s).
Proof.
  intros R F E. rewrite update_answer in E by assumption.
  destruct (updateVideoSchema_parse body) as [d|e] eqn:P.
  - rewrite F in E. injection E as <- <-.
    apply update_parse_fields in P
      as (Pt & Pd & Ps & Pth & Pdu & Pcp & Pcs & Pcd).
    split.
    + intros _. exists (set_video d now old). split.
      { unfold find_video in *; simpl.
        rewrite (find_updated_row id (set_video d now)
                   (set_video_keeps_id d now)).
        now rewrite F. }
      unfold set_video; simpl.
      repeat split; intros;
        match goal with
        | B : body_field ?k body = _, Q : _ (body_field ?k body) = _ |- _ =>
            rewrite B in Q; simpl in Q; injection Q as <-; reflexivity
        end.
    + intros [B|B]; [rewrite B in Pt | rewrite B in Ps]; discriminate.
  - injection E as <- <-. split.
    + rewrite invalid_video_data_status. discriminate.
    + intros _. split; [apply invalid_video_data_status | reflexivity].
Qed.

Lemma update_stores_supplied_fields_witness :
  exists new,
    find_video "v1"
      (snd (put_api_admin_videos_id 9000 (Some root) "v1"
              (JObj [("title", JStr "New"); ("description", JNull);
                     ("canDownload", JBool true)])
              library))
    = Some new
    /\ Video.title new = "New"
    /\ Video.description new = None
    /\ Video.canDownload new = Some true.
Proof.
  destruct (update_stores_supplied_fields 9000 root "v1"
              (JObj [("title", JStr "New"); ("description", JNull);
                     ("canDownload", JBool true)])
              library eq_refl eq_refl eq_refl) as (H & _).
  destruct (H eq_refl) as (new & F & T & _ & _ & D & _ & _ & C).
  exists new. split; [exact F|]. split; [now apply T|].
  split; [now apply D | now apply C].
Defined.

(** X16: An update and a later download meet: once an admin's update has set
    [canDownload] to true the download route redirects every
    authenticated caller to the video's source, and once it has set it to
    false or to [null] the route refuses with 403. *)
Theorem update_then_download
    (now : Z) (admin u : User.t) (id : string) (body : json)
    (s s' : Store) (answer : Response) (old : Video.t) :
  User.role admin = ADMIN ->
  find_video id s = Some old ->
  put_api_admin_videos_id now (Some admin) id body s = (answer, s') ->
  status answer = 200 ->
  (body_field "canDownload" body = Some (JBool true) ->
   exists new,
     find_video id s' = Some new
     /\ get_api_videos_id_download (Some u) id s'
        = (mkResponse 302 (BRedirect (Video.sourceUrl new)), s'))
  /\ (body_field "canDownload" body = Some (JBool false)
      \/ body_field "canDownload" body = Some JNull ->
      get_api_videos_id_download (Some u) id s'
      = (message 403 "Download not allowed for this video", s')).
Proof.
  intros R F E St. rewrite update_answer in E by assumption.
  destruct (updateVideoSchema_parse body) as [d|e] eqn:P.
  2:{ injection E as <- <-. rewrite invalid_video_data_status in St.
      discriminate. }
  rewrite F in E. injection E as <- <-.
  apply update_parse_fields in P as (_ & _ & _ & _ & _ & _ & _ & Pcd).
  assert (Fn : forall t,
             t = mkStore (users s)
                   (update_where id (set_video d now) (videos s)) ->
             find_video id t = Some (set_video d now old)).
  { intros t ->. unfold find_video in *; simpl.
    rewrite (find_updated_row id (set_video d now)
               (set_video_keeps_id d now)).
    now rewrite F. }
  split.
  - intros B. rewrite B in Pcd. simpl in Pcd. injection Pcd as Pcd.
    exists (set_video d now old). split; [now apply Fn|].
    rewrite download_answer, (Fn _ eq_refl). simpl. now rewrite <- Pcd.
  - intros B. rewrite download_answer, (Fn _ eq_refl). simpl.
    destruct B as [B|B]; rewrite B in Pcd; simpl in Pcd;
      injection Pcd as Pcd; now rewrite <- Pcd.
Qed.

Lemma update_then_download_witness :
  get_api_videos_id_download (Some alice) "v1"
    (snd (put_api_admin_videos_id 9000 (Some root) "v1"
            (JObj [("canDownload", JBool true)]) library))
  = (mkResponse 302 (BRedirect "http://cdn/clip.mp4"),
     snd (put_api_admin_videos_id 9000 (Some root) "v1"
            (JObj [("canDownload", JBool true)]) library)).
Proof.
  destruct (update_then_download 9000 root alice "v1"
              (JObj [("canDownload", JBool true)]) library
              eq_refl eq_refl eq_refl eq_refl) as (H & _).
  destruct (H eq_refl) as (new & F & D).
  injection F as <-. exact D.
Defined.

(** ** Counting views *)

Lemma detail_step (u : User.t) (id : string) (s : Store) (v : Video.t)
    (m : Z) :
  video_ids_unique s ->
  find_video id s = Some v ->
  Video.views v = Some m ->
  (m < INT4_MAX)%Z ->
  get_api_videos_id (Some u) id s
  = (mkResponse 200 (BJson (detailedVideo v)),
     mkStore (users s) (update_where id increment_views (videos s))).
Proof.
  intros U F V L. rewrite detail_answer, F.
  now rewrite (views_within_range _ U F V L).
Qed.




(** ** Statistics follow the catalog *)

Lemma sum_views_incremented (id : string) (l : list Video.t) (v : Video.t)
    (m : Z) :
  NoDup (map Video.id l) ->
  find (has_video_id id) l = Some v ->
  Video.views v = Some m ->
  sum_views (update_where id increment_views l) = (sum_views l + 1)%Z.
Proof.
  induction l as [|w l IH]; simpl; [discriminate|].
  intros N F V. inversion N as [|? ? Nw Nl]; subst.
  destruct (has_video_id id w) eqn:H.
  - injection F as ->.
    assert (T : find (has_video_id id) l = None).
    { destruct (find (has_video_id id) l) as [x|] eqn:Fx; [|reflexivity].
      apply find_some in Fx as [I Hx].
      apply String.eqb_eq in H, Hx. elim Nw. rewrite H, <- Hx.
      now apply in_map. }
    fold (update_where id increment_views l).
    rewrite (update_no_row _ _ _ T).
    unfold views_or_0, increment_views. simpl. rewrite V. simpl. lia.
  - fold (update_where id increment_views l).
    rewrite (IH Nl F V). lia.
Qed.

Lemma sum_views_snoc (l : list Video.t) (v : Video.t) :
  sum_views (l ++ [v]) = (sum_views l + views_or_0 v)%Z.
Proof.
  induction l as [|w l IH]; simpl; [lia|]. rewrite IH. lia.
Qed.

(** X18: For an admin the statistics count the stored videos and add up their
    counters (NULL as 0) without writing; a counted detail read raises
    [totalViews] by one and leaves [totalVideos], and a created video
    raises [totalVideos] by one and leaves [totalViews]. *)
Theorem stats_follow_the_catalog (admin : User.t) (s : Store) :
  User.role admin = ADMIN ->
  get_api_admin_stats (Some admin) s
  = (mkResponse 200
       (BJson (stats_json (List.length (videos s)) 1249 (sum_views (videos s)))),
     s)
  /\ (forall u id v m,
      video_ids_unique s -> find_video id s = Some v ->
      Video.views v = Some m -> (m < INT4_MAX)%Z ->
      let s1 := snd (get_api_videos_id (Some u) id s) in
      fst (get_api_admin_stats (Some admin) s1)
      = mkResponse 200
          (BJson (stats_json (List.length (videos s)) 1249
                             (sum_views (videos s) + 1))))
  /\ (forall uuid now body,
      let r := post_api_admin_videos uuid now (Some admin) body s in
      status (fst r) = 201 ->
      fst (get_api_admin_stats (Some admin) (snd r))
      = mkResponse 200
          (BJson (stats_json (S (List.length (videos s))) 1249
                             (sum_views (videos s))))).
Proof.
  intros R. split; [now apply stats_answer|]. split.
  - intros u id v m U F V L s1. subst s1.
    rewrite (@detail_step u id s v m U F V L). simpl snd.
    rewrite stats_answer by assumption. simpl.
    unfold update_where at 1. rewrite length_map.
    now rewrite (@sum_views_incremented id (videos s) v m U F V).
  - intros uuid now body r St. subst r.
    rewrite create_answer in * by assumption.
    destruct (insertVideoSchema_parse body) as [d|e].
    2:{ simpl in St. rewrite invalid_video_data_status in St. discriminate. }
    unfold createVideo in *.
    destruct (existsb (has_video_id uuid) (videos s)); [discriminate|].
    cbn [snd]. rewrite stats_answer by assumption.
    cbn [fst videos]. rewrite length_app, sum_views_snoc.
    cbn [List.length]. rewrite Nat.add_1_r.
    unfold views_or_0. cbn [Video.views]. now rewrite Z.add_0_r.
Qed.

Lemma stats_follow_the_catalog_witness :
  fst (get_api_admin_stats (Some root)
         (snd (get_api_videos_id (Some alice) "v1" library)))
  = mkResponse 200 (BJson (stats_json 1 1249 6)).
Proof.
  destruct (@stats_follow_the_catalog root library eq_refl) as (_ & H & _).
  apply (H alice "v1" clip 5%Z); try reflexivity.
  repeat constructor. intros [].
Defined.

(** ** Avatar upload *)

Lemma avatar_answer (u : User.t) (part : option File.t) (s : Store) :
  post_api_me_avatar (Some u) part s
  = match part with
    | None => (Answered (message 400 "No file uploaded"), s)
    | Some file =>
        if negb (fileFilter file) then (NextError OnlyImageFiles, s)
        else if (fileSize <? File.size file)%Z
        then (NextError LIMIT_FILE_SIZE, s)
        else
          (Answered
             (mkResponse 200
                (BJson (JObj [("avatarUrl",
                               JStr ("/uploads/" ++ File.filename file))]))),
           mkStore
             (map (fun w => if has_user_id (User.id u) w
                            then set_avatarUrl
                                   ("/uploads/" ++ File.filename file) w
                            else w)
                  (users s))
             (videos s))
    end.
Proof.
  unfold post_api_me_avatar, upload_single. simpl.
  destruct part as [file|]; [|reflexivity].
  destruct (negb (fileFilter file)); [reflexivity|].
  now destruct (fileSize <? File.size file)%Z.
Qed.

(** X19: An authenticated user's upload of an image of at most 5 MB answers
    with the new [/uploads/...] address and stores it as that user's
    avatar: the user's other columns, every other user and the videos stay
    as they were.  A request without a file answers 400; a file that is
    not an image or is larger than 5 MB is handed to the error handler;
    none of these writes. *)
Theorem avatar_upload_changes_only_the_avatar
    (u : User.t) (part : option File.t) (s s' : Store)
    (answer : AvatarAnswer) :
  post_api_me_avatar (Some u) part s = (answer, s') ->
  (forall file,
      part = Some file ->
      fileFilter file = true -> (File.size file <= fileSize)%Z ->
      let avatarUrl := "/uploads/" ++ File.filename file in
      answer
      = Answered (mkResponse 200 (BJson (JObj [("avatarUrl", JStr avatarUrl)])))
      /\ (forall stored,
          find_user (User.id u) s = Some stored ->
          find_user (User.id u) s'
          = Some (User.mk (User.id stored) (User.email stored)
                          (User.password stored) (Some avatarUrl)
                          (User.role stored) (User.createdAt stored)))
      /\ (forall i, i <> User.id u -> find_user i s' = find_user i s)
      /\ videos s' = videos s)
  /\ (part = None ->
      answer = Answered (message 400 "No file uploaded") /\ s' = s)
  /\ (forall file,
      part = Some file -> fileFilter file = false ->
      answer = NextError OnlyImageFiles /\ s' = s)
  /\ (forall file,
      part = Some file ->
      fileFilter file = true -> (fileSize < File.size file)%Z ->
      answer = NextError LIMIT_FILE_SIZE /\ s' = s).
Proof.
  intros E. rewrite avatar_answer in E.
  split; [|split; [|split]].
  - intros file -> Img Small avatarUrl.
    rewrite Img in E. simpl in E.
    assert (L : (fileSize <? File.size file)%Z = false)
      by (apply Z.ltb_ge; lia).
    rewrite L in E. injection E as <- <-.
    split; [reflexivity|]. unfold find_user. simpl.
    split; [|split; [|reflexivity]].
    + intros stored F. rewrite find_user_after_avatar, F. simpl.
      apply find_some in F as [_ H]. now rewrite H.
    + intros i N. rewrite find_user_after_avatar.
      destruct (find (has_user_id i) (users s)) as [w|] eqn:F; [|reflexivity].
      simpl. apply find_some in F as [_ H]. apply String.eqb_eq in H.
      destruct (has_user_id (User.id u) w) eqn:Hu; [|reflexivity].
      apply String.eqb_eq in Hu. congruence.
  - intros ->. now injection E as <- <-.
  - intros file -> Img. rewrite Img in E. now injection E as <- <-.
  - intros file -> Img Big. rewrite Img in E. simpl in E.
    assert (L : (fileSize <? File.size file)%Z = true)
      by (apply Z.ltb_lt; lia).
    rewrite L in E. now injection E as <- <-.
Qed.

Lemma avatar_upload_changes_only_the_avatar_witness :
  find_user "u1"
    (snd (post_api_me_avatar (Some alice)
            (Some (File.mk "image/png" 2048 "3fa9")) library))
  = Some (User.mk "u1" "alice@example.org" "$2a$12$alice"
                  (Some "/uploads/3fa9") USER (Some 1000%Z))
  /\ find_user "u0"
       (snd (post_api_me_avatar (Some alice)
               (Some (File.mk "image/png" 2048 "3fa9")) library))
     = Some root.
Proof.
  destruct (avatar_upload_changes_only_the_avatar alice
              (Some (File.mk "image/png" 2048 "3fa9")) library eq_refl)
    as (H & _).
  destruct (H (File.mk "image/png" 2048 "3fa9") eq_refl eq_refl)
    as (_ & A & B & _).
  - unfold fileSize. simpl. lia.
  - split; [apply (A alice); reflexivity|].
    apply (B "u0"). discriminate.
Defined.

(** ** The client's checks against the server's *)

(** X20: The profile dialog starts an upload for exactly the files multer will
    accept: the same type prefix and the same size limit on both sides. *)
Theorem client_upload_check_matches_multer (file : File.t) :
  (handleFileSelect (Some file) = UploadAvatar file
   <-> upload_single (Some file) = inr (Some file))
  /\ (handleFileSelect (Some file)
      = Toast "Invalid file type" "Please select an image file"
      <-> upload_single (Some file) = inl OnlyImageFiles)
  /\ (handleFileSelect (Some file)
      = Toast "File too large" "Please select an image smaller than 5MB"
      <-> upload_single (Some file) = inl LIMIT_FILE_SIZE).
Proof.
  unfold handleFileSelect, upload_single, fileFilter.
  change (5 * 1024 * 1024)%Z with fileSize.
  destruct (String.prefix "image/" (File.mimetype file)); simpl.
  - destruct (fileSize <? File.size file)%Z;
      repeat split; intros H; try discriminate H; reflexivity.
  - repeat split; intros H; try discriminate H; reflexivity.
Qed.

(** X21: The download button opens the download address exactly when the
    server, holding the same row, would redirect; where the button shows
    its refusal the server would answer 403. *)
Theorem client_download_check_matches_server
    (u : User.t) (s : Store) (video : Video.t) :
  find_video (Video.id video) s = Some video ->
  let answer :=
    fst (get_api_videos_id_download (Some u) (Video.id video) s) in
  (handleDownload video
   = WindowOpen ("/api/videos/" ++ Video.id video ++ "/download")
   <-> answer = mkResponse 302 (BRedirect (Video.sourceUrl video)))
  /\ (handleDownload video
      = Toast "Download not available" "This video cannot be downloaded"
      <-> answer = message 403 "Download not allowed for this video").
Proof.
  intros F answer. subst answer. rewrite download_answer, F.
  unfold handleDownload.
  destruct (falsy (Video.canDownload video)); simpl;
    repeat split; intros H; try discriminate H; reflexivity.
Qed.

Lemma client_download_check_matches_server_witness :
  handleDownload clip
  = Toast "Download not available" "This video cannot be downloaded"
  /\ fst (get_api_videos_id_download (Some alice) "v1" library)
     = message 403 "Download not allowed for this video".
Proof.
  destruct (@client_download_check_matches_server alice library clip eq_refl)
    as (_ & H).
  split; [reflexivity | now apply H].
Defined.

(** ** Keys outside the schemas *)

Lemma jget_other (k k' : string) (x : json) (o : list (string * json)) :
  k' <> k -> jget k' ((k, x) :: o) = jget k' o.
Proof.
  intros N. simpl. now destruct (String.eqb_spec k' k).
Qed.

(** X22: A key outside the eight of the video schemas ([id], [views],
    [createdAt], [updatedAt] or any other) makes no difference: with or
    without it the create and the update route answer the same and leave
    the same store. *)
Theorem extra_keys_are_ignored
    (k : string) (x : json) (o : list (string * json))
    (uuid id : string) (now : Z) (principal : option User.t) (s : Store) :
  ~ In k schema_keys ->
  post_api_admin_videos uuid now principal (JObj ((k, x) :: o)) s
  = post_api_admin_videos uuid now principal (JObj o) s
  /\ put_api_admin_videos_id now principal id (JObj ((k, x) :: o)) s
     = put_api_admin_videos_id now principal id (JObj o) s.
Proof.
  intros N. unfold schema_keys in N. simpl in N.
  assert (G : forall k', In k' schema_keys ->
              jget k' ((k, x) :: o) = jget k' o).
  { intros k' I. apply jget_other. intros ->. now apply N. }
  unfold post_api_admin_videos, put_api_admin_videos_id,
    insertVideoSchema_parse, updateVideoSchema_parse.
  rewrite !G by (unfold schema_keys; simpl; tauto).
  now split.
Qed.

Lemma extra_keys_are_ignored_witness :
  post_api_admin_videos "v2" 3000 (Some root)
    (JObj [("views", JNum 1000000); ("title", JStr "T");
           ("sourceUrl", JStr "http://x")]) library
  = post_api_admin_videos "v2" 3000 (Some root)
      (JObj [("title", JStr "T"); ("sourceUrl", JStr "http://x")]) library.
Proof.
  apply (@extra_keys_are_ignored "views" (JNum 1000000)
           [("title", JStr "T"); ("sourceUrl", JStr "http://x")]
           "v2" "v1" 3000 (Some root) library).
  unfold schema_keys. simpl. intuition discriminate.
Defined.

(** ** View counters over the life of the store *)

Lemma writes_keep_counters_in_range (s s' : Store) :
  writes s s' ->
  Forall counter_in_range (videos s) -> Forall counter_in_range (videos s').
Proof.
  intros W V. destruct W as
    [uuid now iu s user s' H | userId avatarUrl s s' H
    | uuid now d s v s' H | now id d s r s' H
    | id s b s' H | id s s' H].
  - unfold createUser in H. destruct (_ || _) in H; [discriminate|].
    now injection H as _ <-.
  - now injection H as <-.
  - unfold createVideo in H.
    destruct (existsb _ _) in H; [discriminate|].
    injection H as <- <-. simpl. apply Forall_app. split; [exact V|].
    constructor; [|constructor].
    unfold counter_in_range, INT4_MAX. simpl. lia.
  - injection H as _ <-. simpl. unfold update_where.
    now apply Forall_update.
  - injection H as _ <-. simpl.
    apply Forall_forall. intros v I. apply filter_In in I as [I _].
    revert v I. now apply Forall_forall.
  - unfold incrementVideoViews in H.
    destruct (existsb (views_overflow id) (videos s)) eqn:O; [discriminate|].
    injection H as <-. simpl. unfold update_where.
    apply Forall_forall. intros v I.
    apply in_map_iff in I as (w & <- & I).
    pose proof (proj1 (Forall_forall _ _) V w I) as Rw.
    destruct (has_video_id id w) eqn:Hw; [|exact Rw].
    assert (Ow : views_overflow id w = false).
    { destruct (views_overflow id w) eqn:Ow; [|reflexivity].
      assert (existsb (views_overflow id) (videos s) = true)
        by (apply existsb_exists; now exists w).
      congruence. }
    unfold views_overflow in Ow. rewrite Hw in Ow. simpl in Ow.
    unfold counter_in_range, increment_views in *. simpl.
    destruct (Video.views w) as [n|]; [|contradiction]. simpl.
    apply Z.leb_gt in Ow. lia.
Qed.

(** X23: In every store built by the storage methods each view counter is a
    number between 0 and the largest 32-bit integer. *)
Theorem reachable_counters_in_range (s : Store) :
  reachable s -> Forall counter_in_range (videos s).
Proof.
  induction 1 as [|s s' _ IH W]; [constructor|].
  now apply (writes_keep_counters_in_range W).
Qed.

Lemma reachable_counters_in_range_witness :
  Forall counter_in_range
    [Video.mk "v1" "Clip" None "http://cdn/clip.mp4" None None (Some 0%Z)
              (Some true) (Some true) (Some false)
              (Some 2000%Z) (Some 2000%Z)].
Proof.
  apply (@reachable_counters_in_range (mkStore [] _)).
  eapply reachable_step; [apply reachable_empty|].
  apply (@writes_createVideo "v1" 2000
           (InsertVideo.mk "Clip" Absent "http://cdn/clip.mp4"
                           Absent Absent Absent Absent Absent)
           (mkStore [] []) _ _ eq_refl).
Defined.

(** X24: No storage method lowers a view counter: a video that is found before
    and after a write with a number as its counter before has a number at
    least as large after, and at most one more. *)
Theorem writes_never_lower_counters
    (s s' : Store) (id : string) (v v' : Video.t) (n : Z) :
  writes s s' ->
  find_video id s = Some v ->
  find_video id s' = Some v' ->
  Video.views v = Some n ->
  exists n', Video.views v' = Some n' /\ (n <= n' <= n + 1)%Z.
Proof.
  intros W F F' V.
  assert (Same : videos s' = videos s -> 
                 exists n', Video.views v' = Some n' /\ (n <= n' <= n + 1)%Z).
  { intros E. unfold find_video in *. rewrite E, F in F'.
    injection F' as <-. exists n. split; [exact V | lia]. }
  destruct W as
    [uuid now iu s user s' H | userId avatarUrl s s' H
    | uuid now d s w s' H | now i d s r s' H
    | i s b s' H | i s s' H].
  - apply Same. unfold createUser in H.
    destruct (_ || _) in H; [discriminate|]. now injection H as _ <-.
  - apply Same. now injection H as <-.
  - unfold createVideo in H.
    destruct (existsb _ _) in H; [discriminate|].
    injection H as _ <-. unfold find_video in *. simpl in F'.
    rewrite find_snoc, F in F'. injection F' as <-.
    exists n. split; [exact V | lia].
  - injection H as _ <-. unfold find_video in *. simpl in F'.
    destruct (String.eqb_spec id i) as [->|N].
    + rewrite (find_updated_row i (set_video d now)
                 (set_video_keeps_id d now)), F in F'.
      injection F' as <-. exists n. split; [exact V | lia].
    + rewrite find_other_row in F'
        by (trivial; apply set_video_keeps_id).
      rewrite F in F'. injection F' as <-.
      exists n. split; [exact V | lia].
  - injection H as _ <-. unfold find_video in *. simpl in F'.
    rewrite find_after_delete in F'.
    destruct (String.eqb id i); [discriminate|].
    rewrite F in F'. injection F' as <-.
    exists n. split; [exact V | lia].
  - unfold incrementVideoViews in H.
    destruct (existsb _ _) in H; [discriminate|].
    injection H as <-. unfold find_video in *. simpl in F'.
    destruct (String.eqb_spec id i) as [->|N].
    + rewrite (find_updated_row i increment_views (fun w => eq_refl)), F
        in F'.
      injection F' as <-. exists (n + 1)%Z.
      unfold increment_views. simpl. rewrite V. split; [reflexivity | lia].
    + rewrite find_other_row in F' by (trivial; reflexivity).
      rewrite F in F'. injection F' as <-.
      exists n. split; [exact V | lia].
Qed.

Lemma writes_never_lower_counters_witness :
  exists n',
    Video.views (set_views (Some 6%Z) clip) = Some n' /\ (5 <= n' <= 5 + 1)%Z.
Proof.
  apply (@writes_never_lower_counters library
           (mkStore (users library) [set_views (Some 6%Z) clip])
           "v1" clip (set_views (Some 6%Z) clip) 5%Z).
  - apply (@writes_incrementVideoViews "v1" library _ eq_refl).
  - reflexivity.
  - reflexivity.
  - reflexivity.
Defined.
